(** * Temperature analysis: rolling baseline, anomaly flags, seasonal profile

    A shallow embedding of [temperature_analysis_app.py] and of the pandas
    operations it calls.

    Conventions of the model.
    - A [float64] is either [NaN] or a finite value, and finite values are
      exact real numbers: rounding and infinities are left out, the way NaN
      spreads and the way comparisons with NaN answer [False] are kept.
      The further properties stated of computed means, deviations and
      bounds are orderings and NaN patterns that rounding preserves.
    - A [DataFrame] holds the four columns of the CSV file as typed
      observations (the index is the timestamp) and, by name, the columns
      that the program adds later with [df[name] = ...].
    - Frames are objects: a program variable holds a reference into a heap,
      [sort_index] and [copy] allocate, item assignment updates in place. *)

From Stdlib Require Import ZArith Reals Lra Lia String.
From stdpp Require Import base decidable option list gmap strings sorting pretty.

#[global] Instance Rlt_decision : RelDecision Rlt := Rlt_dec.
#[global] Instance Rle_decision : RelDecision Rle := Rle_dec.

(** ** Numbers *)

Inductive float64 : Type :=
  | NaN
  | Fin (x : R).

Definition is_nan (a : float64) : bool :=
  match a with NaN => true | Fin _ => false end.

Definition lift2 (f : R → R → R) (a b : float64) : float64 :=
  match a, b with
  | Fin x, Fin y => Fin (f x y)
  | _, _ => NaN
  end.

Definition fadd : float64 → float64 → float64 := lift2 Rplus.
Definition fsub : float64 → float64 → float64 := lift2 Rminus.
Definition fmul : float64 → float64 → float64 := lift2 Rmult.

(** Comparisons: any comparison that involves NaN is [false]. *)
Definition flt (a b : float64) : bool :=
  match a, b with
  | Fin x, Fin y => bool_decide (x < y)%R
  | _, _ => false
  end.
Definition fgt (a b : float64) : bool := flt b a.
Definition fle (a b : float64) : bool :=
  match a, b with
  | Fin x, Fin y => bool_decide (x <= y)%R
  | _, _ => false
  end.

(** ** Aggregations that skip NaN ([Series.mean], [Series.std], ...) *)

Definition notna (xs : list float64) : list R :=
  omap (λ v, match v with Fin x => Some x | NaN => None end) xs.

Definition Rsum (vs : list R) : R := foldr Rplus 0%R vs.

Definition mean_of (vs : list R) : R := (Rsum vs / INR (length vs))%R.

(** Sum of the squared deviations from the mean. *)
Definition ssqdm (vs : list R) : R :=
  Rsum ((λ x, (x - mean_of vs) * (x - mean_of vs))%R <$> vs).

(** [mean()]: NaN when no valid value is left. *)
Definition series_mean (xs : list float64) : float64 :=
  let vs := notna xs in
  if decide (0 < length vs) then Fin (mean_of vs) else NaN.

(** [std(ddof)]: the divisor is [nobs - ddof]; NaN unless [nobs > ddof]. *)
Definition series_std (ddof : nat) (xs : list float64) : float64 :=
  let vs := notna xs in
  if decide (ddof < length vs)
  then Fin (sqrt (ssqdm vs / INR (length vs - ddof)))
  else NaN.

Definition Rlist_min (x : R) (vs : list R) : R := foldr Rmin x vs.
Definition Rlist_max (x : R) (vs : list R) : R := foldr Rmax x vs.

Definition series_min (xs : list float64) : float64 :=
  match notna xs with [] => NaN | x :: vs => Fin (Rlist_min x vs) end.
Definition series_max (xs : list float64) : float64 :=
  match notna xs with [] => NaN | x :: vs => Fin (Rlist_max x vs) end.

(** [count()]: the number of values that are not NaN. *)
Definition series_count (xs : list float64) : nat := length (notna xs).

(** ** Fixed rolling windows ([Series.rolling(window, center, min_periods)]) *)

Inductive exn : Type :=
  | KeyError (column : string)
  | ValueError
  | DanglingRef.

Inductive result (A : Type) : Type :=
  | Ok (a : A)
  | Raise (e : exn).
Arguments Ok {A} a.
Arguments Raise {A} e.

Definition clip (lo hi x : Z) : Z := Z.min (Z.max x lo) hi.

(** The bounds [start, end) of the window of position [i], as the fixed
    window indexer computes them: the window ends [offset] positions after
    [i], where [offset = (window - 1) // 2] when centered. *)
Definition window_bounds (num_values window : Z) (center : bool) (i : Z)
    : Z * Z :=
  let offset := (if center then (window - 1) `div` 2 else 0)%Z in
  let end_ := (i + 1 + offset)%Z in
  let start := (end_ - window)%Z in
  (clip 0 num_values start, clip 0 num_values end_).

(** [xs[start:end_]] for bounds that are already clipped. *)
Definition slice {A} (start end_ : Z) (xs : list A) : list A :=
  take (Z.to_nat (end_ - start)) (drop (Z.to_nat start) xs).

Record Rolling : Type := mkRolling {
  r_obj : list float64;
  r_window : Z;
  r_center : bool;
  r_min_periods : nat
}.

(** Building the rolling object validates its arguments: the window must
    not be negative and [min_periods] must not exceed it.  pandas computes
    the window bounds in 64-bit integers; a window of [2 ^ 63] or more is
    outside this model, and the statements that promise a result for a
    class of large windows keep below it. *)
Definition rolling (obj : list float64) (window : Z) (center : bool)
    (min_periods : nat) : result Rolling :=
  if decide (window < 0)%Z then Raise ValueError
  else if decide (window < Z.of_nat min_periods)%Z then Raise ValueError
  else Ok (mkRolling obj window center min_periods).

Definition window_at (r : Rolling) (i : nat) : list float64 :=
  let '(s, e) := window_bounds (Z.of_nat (length (r_obj r))) (r_window r)
                   (r_center r) (Z.of_nat i) in
  slice s e (r_obj r).

(** A window with fewer than [min_periods] valid values gives NaN. *)
Definition window_agg (min_periods : nat) (f : list float64 → float64)
    (w : list float64) : float64 :=
  if decide (min_periods ≤ length (notna w)) then f w else NaN.

Definition Rolling_apply (f : list float64 → float64) (r : Rolling)
    : list float64 :=
  (λ i, window_agg (r_min_periods r) f (window_at r i))
    <$> seq 0 (length (r_obj r)).

Definition Rolling_mean : Rolling → list float64 := Rolling_apply series_mean.
Definition Rolling_std : Rolling → list float64 :=
  Rolling_apply (series_std 1).

(** ** Frames *)

(** One line of the CSV file; [season] is [None] for a missing label. *)
Record Obs : Type := mkObs {
  timestamp : Z;
  city : string;
  temperature : float64;
  season : option string
}.

Inductive column : Type :=
  | FloatCol (xs : list float64)
  | BoolCol (bs : list bool).

(** The observations in row order, and the columns added by name. *)
Record frame : Type := mkFrame {
  rows : list Obs;
  cols : gmap string column
}.

(** The frame that the loader builds from the file. *)
Definition raw (obs : list Obs) : frame := mkFrame obs ∅.

(** A boolean column used as numbers counts [True] as 1 and [False] as 0. *)
Definition as_float (c : column) : list float64 :=
  match c with
  | FloatCol xs => xs
  | BoolCol bs => (λ b : bool, if b then Fin 1 else Fin 0) <$> bs
  end.

(** [take]: the values at the given positions, in that order. *)
Definition take_rows {A} (p : list nat) (xs : list A) : list A :=
  omap (λ i, xs !! i) p.

Definition take_col (p : list nat) (c : column) : column :=
  match c with
  | FloatCol xs => FloatCol (take_rows p xs)
  | BoolCol bs => BoolCol (take_rows p bs)
  end.

(** Stable insertion: [x] goes before the first element whose key is not
    smaller, so elements with equal keys keep their input order. *)
Fixpoint insert_by {A} (key : A → Z) (x : A) (l : list A) : list A :=
  match l with
  | [] => [x]
  | y :: l' =>
      if decide (key x ≤ key y)%Z then x :: y :: l'
      else y :: insert_by key x l'
  end.

Definition sort_by {A} (key : A → Z) (l : list A) : list A :=
  foldr (insert_by key) [] l.

(** The positions of the keys in ascending key order. *)
Definition argsort (keys : list Z) : list nat :=
  snd <$> sort_by fst (zip keys (seq 0 (length keys))).

(** [df.sort_index()]: rows and added columns reordered by timestamp.
    pandas promises a sorted result and returns an index that is already
    ascending as it is; both hold here.  Where timestamps repeat in an
    index that is not ascending, pandas' default sort leaves the order
    among them open; the model takes the input order there, and the
    statements about the result of a sort use only that it is sorted and
    holds the same rows. *)
Definition frame_sort_index (df : frame) : frame :=
  let p := argsort (timestamp <$> rows df) in
  mkFrame (take_rows p (rows df)) (take_col p <$> cols df).

(** [df[c]] for a numeric column: the temperature or an added column. *)
Definition frame_getitem (df : frame) (c : string) : result column :=
  if decide (c = "temperature") then Ok (FloatCol (temperature <$> rows df))
  else match cols df !! c with
       | Some col => Ok col
       | None => Raise (KeyError c)
       end.

(** [df[c] = col] for an added column [c]; the program assigns only
    "rolling_mean", "rolling_std", "upper_bound", "lower_bound" and
    "anomaly".  The assigned values carry the index of [df], so they are
    stored position by position. *)
Definition frame_setitem (df : frame) (c : string) (col : column) : frame :=
  mkFrame (rows df) (<[c := col]> (cols df)).

(** Arithmetic and comparisons on columns, position by position. *)
Definition col_add (a b : column) : column :=
  FloatCol (zip_with fadd (as_float a) (as_float b)).
Definition col_sub (a b : column) : column :=
  FloatCol (zip_with fsub (as_float a) (as_float b)).
Definition col_scale (k : R) (a : column) : column :=
  FloatCol (fmul (Fin k) <$> as_float a).
Definition col_gt (a b : column) : list bool :=
  zip_with fgt (as_float a) (as_float b).
Definition col_lt (a b : column) : list bool :=
  zip_with flt (as_float a) (as_float b).
Definition col_or (a b : list bool) : column :=
  BoolCol (zip_with orb a b).

(** ** The heap of frames and the monad of the program *)

Definition loc : Type := nat.
Definition heap : Type := list frame.
Definition M (A : Type) : Type := heap → result A * heap.

#[global] Instance M_ret : MRet M := λ A a h, (Ok a, h).
#[global] Instance M_bind : MBind M := λ A B k m h,
  match m h with
  | (Ok a, h') => k a h'
  | (Raise e, h') => (Raise e, h')
  end.
Definition lift {A} (r : result A) : M A := λ h, (r, h).

Definition alloc (df : frame) : M loc := λ h, (Ok (length h), h ++ [df]).
Definition load (l : loc) : M frame :=
  λ h, match h !! l with
       | Some df => (Ok df, h)
       | None => (Raise DanglingRef, h)
       end.
Definition store (l : loc) (df : frame) : M unit :=
  λ h, (Ok (), <[l := df]> h).

(** The methods of a frame, on references. *)
Definition sort_index (l : loc) : M loc :=
  df ← load l; alloc (frame_sort_index df).
Definition copy (l : loc) : M loc :=
  df ← load l; alloc df.
Definition getitem (l : loc) (c : string) : M column :=
  df ← load l; lift (frame_getitem df c).
Definition setitem (l : loc) (c : string) (col : column) : M unit :=
  df ← load l; store l (frame_setitem df c col).

(** ** The two functions of the program *)

Definition calculate_moving_statistics (city_data : loc) (window : Z)
    : M loc :=
  sorted ← sort_index city_data;
  city_data ← copy sorted;
  t ← getitem city_data "temperature";
  r ← lift (rolling (as_float t) window true 1);
  setitem city_data "rolling_mean" (FloatCol (Rolling_mean r));;
  t ← getitem city_data "temperature";
  r ← lift (rolling (as_float t) window true 1);
  setitem city_data "rolling_std" (FloatCol (Rolling_std r));;
  m ← getitem city_data "rolling_mean";
  s ← getitem city_data "rolling_std";
  setitem city_data "upper_bound" (col_add m (col_scale 2 s));;
  m ← getitem city_data "rolling_mean";
  s ← getitem city_data "rolling_std";
  setitem city_data "lower_bound" (col_sub m (col_scale 2 s));;
  mret city_data.

Definition detect_anomalies (city_data : loc) : M loc :=
  city_data ← copy city_data;
  t ← getitem city_data "temperature";
  u ← getitem city_data "upper_bound";
  t' ← getitem city_data "temperature";
  l ← getitem city_data "lower_bound";
  setitem city_data "anomaly" (col_or (col_gt t u) (col_lt t' l));;
  mret city_data.

(** What a caller that holds the frame [df] gets back. *)
Definition returned (r : result loc * heap) : result frame :=
  match r with
  | (Ok l, h) => match h !! l with Some df => Ok df | None => Raise DanglingRef end
  | (Raise e, _) => Raise e
  end.

Definition call_calculate_moving_statistics (df : frame) (window : Z)
    : result frame :=
  returned (calculate_moving_statistics 0 window [df]).

Definition call_detect_anomalies (df : frame) : result frame :=
  returned (detect_anomalies 0 [df]).

(** ** The current reading against the season *)

(** [month_to_season.get(current_month, "unknown")]. *)
Definition month_to_season (month : Z) : string :=
  match month with
  | 12 | 1 | 2 => "winter"
  | 3 | 4 | 5 => "spring"
  | 6 | 7 | 8 => "summer"
  | 9 | 10 | 11 => "autumn"
  | _ => "unknown"
  end%Z.

(** [city_data[city_data['season'] == s]]. *)
Definition select_season (city_data : list Obs) (s : string) : list Obs :=
  filter (λ o, season o = Some s) city_data.

Record Evaluation : Type := mkEvaluation {
  mean_temp : float64;
  std_temp : float64;
  lower_bound : float64;
  upper_bound : float64;
  is_normal : bool
}.

(** The comparison of a reading with the season [current_season]; [None]
    when the branch [if len(season_data) > 0] is not taken and nothing is
    computed. *)
Definition evaluate_in_season (city_data : list Obs) (current_season : string)
    (reading : float64) : option Evaluation :=
  let season_data := select_season city_data current_season in
  if decide (0 < length season_data) then
    let mean_temp := series_mean (temperature <$> season_data) in
    let std_temp := series_std 1 (temperature <$> season_data) in
    let lower_bound := fsub mean_temp (fmul (Fin 2) std_temp) in
    let upper_bound := fadd mean_temp (fmul (Fin 2) std_temp) in
    let is_normal := fle lower_bound reading && fle reading upper_bound in
    Some (mkEvaluation mean_temp std_temp lower_bound upper_bound is_normal)
  else None.

Definition evaluate_reading (city_data : list Obs) (current_month : Z)
    (reading : float64) : option Evaluation :=
  evaluate_in_season city_data (month_to_season current_month) reading.

(** ** Statistics by season *)

(** [round(2)]: to the nearest multiple of 1/100, a tie to the even one. *)
Definition Rfloor (x : R) : Z := (up x - 1)%Z.

Definition rint (x : R) : Z :=
  let f := Rfloor x in
  let d := (x - IZR f)%R in
  if decide (d < 1 / 2)%R then f
  else if decide (1 / 2 < d)%R then (f + 1)%Z
  else if Z.even f then f else (f + 1)%Z.

Definition round2 (a : float64) : float64 :=
  match a with
  | NaN => NaN
  | Fin x => Fin (IZR (rint (x * 100)) / 100)
  end.

Record SeasonStats : Type := mkSeasonStats {
  temperature_mean : float64;
  temperature_std : float64;
  temperature_min : float64;
  temperature_max : float64;
  temperature_count : nat
}.

Definition string_le (a b : string) : Prop := String.leb a b = true.

#[global] Instance string_le_dec : RelDecision string_le.
Proof. intros a b. unfold string_le. apply _. Defined.

(** The group keys: the labels that occur, each once, in ascending order;
    rows without a label belong to no group. *)
Definition group_keys (city_data : list Obs) : list string :=
  merge_sort string_le (remove_dups (omap season city_data)).

(** [city_data.groupby('season').agg({'temperature': ['mean', 'std', 'min',
    'max', 'count']}).round(2)], one entry per group. *)
Definition seasonal_stats (city_data : list Obs)
    : list (string * SeasonStats) :=
  (λ s,
     let g := temperature <$> select_season city_data s in
     (s, mkSeasonStats (round2 (series_mean g)) (round2 (series_std 1 g))
           (round2 (series_min g)) (round2 (series_max g))
           (series_count g)))
  <$> group_keys city_data.

(** ** The city of the page *)

(** [sorted(data['city'].unique())]: the cities that occur, each once, in
    ascending order. *)
Definition city_list (data : list Obs) : list string :=
  merge_sort string_le (remove_dups (city <$> data)).

(** [data[data['city'] == selected_city]]. *)
Definition select_city (data : list Obs) (selected_city : string)
    : list Obs :=
  filter (λ o, city o = selected_city) data.

(** ** The figures under the time series *)

Record Metrics : Type := mkMetrics {
  metric_mean : float64;
  metric_max : float64;
  metric_min : float64;
  metric_std : float64
}.

(** [city_data['temperature'].mean()], [.max()], [.min()] and [.std()],
    before they are formatted. *)
Definition temperature_metrics (city_data : list Obs) : Metrics :=
  let t := temperature <$> city_data in
  mkMetrics (series_mean t) (series_max t) (series_min t) (series_std 1 t).

(** ** The anomaly tab *)

(** [xs[mask]]: the values at the positions where the mask is [True]. *)
Definition mask_select {A} (mask : list bool) (xs : list A) : list A :=
  (filter (λ p, p.1 = true) (zip mask xs)).*2.

Definition col_mask (mask : list bool) (c : column) : column :=
  match c with
  | FloatCol xs => FloatCol (mask_select mask xs)
  | BoolCol bs => BoolCol (mask_select mask bs)
  end.

(** [df[mask]] for a boolean column [mask] of [df]. *)
Definition frame_mask (mask : list bool) (df : frame) : frame :=
  mkFrame (mask_select mask (rows df)) (col_mask mask <$> cols df).

(** [~mask]. *)
Definition mask_not (mask : list bool) : list bool := negb <$> mask.

(** [mask.sum()]: the number of [True]. *)
Definition bool_sum (mask : list bool) : nat :=
  sum_list ((λ b : bool, if b then 1 else 0) <$> mask).

(** [anomaly_count / len(city_data) * 100], a division of numpy numbers:
    0 / 0 is NaN. *)
Definition anomaly_percent (anomaly_count n : nat) : float64 :=
  if decide (n = 0) then NaN
  else Fin (INR anomaly_count / INR n * 100).

(** ** The seasons in display order *)

Definition season_order : list string :=
  ["winter"; "spring"; "summer"; "autumn"].

(** The row of a label in the statistics, if there is one. *)
Definition stats_row (stats : list (string * SeasonStats)) (s : string)
    : option SeasonStats :=
  snd <$> head (filter (λ e, e.1 = s) stats).

(** [seasonal_stats.set_index('season').reindex(season_order)
    .reset_index()]: one row per name of [season_order], in that order;
    [None] stands for the row of NaN that a name without statistics gets;
    rows of other labels are dropped. *)
Definition seasonal_stats_ordered (city_data : list Obs)
    : list (string * option SeasonStats) :=
  (λ s, (s, stats_row (seasonal_stats city_data) s)) <$> season_order.

(** ** The weather client *)

(** A parsed JSON document. *)
#[warnings="-register-all"]
Inductive json : Type :=
  | JNull
  | JBool (b : bool)
  | JNum (x : float64)
  | JStr (s : string)
  | JArr (l : list json)
  | JObj (o : gmap string json).

(** The first character of a string, as UTF-8 bytes: a byte and the
    continuation bytes (of the form 10xxxxxx) that follow it. *)
Fixpoint utf8_continuation (s : string) : string :=
  match s with
  | String c s' =>
      if decide (128 ≤ Ascii.nat_of_ascii c < 192)
      then String c (utf8_continuation s') else ""
  | EmptyString => ""
  end.

Definition utf8_first (s : string) : string :=
  match s with
  | String c s' => String c (utf8_continuation s')
  | EmptyString => ""
  end.

(** [v[k]] for a string [k]; [None] when Python raises ([KeyError] for a
    dict without the key, [TypeError] for anything but a dict). *)
Definition json_getitem (v : json) (k : string) : option json :=
  match v with
  | JObj o => o !! k
  | _ => None
  end.

(** [v[0]]; [None] when Python raises ([IndexError] for an empty list or
    string, [KeyError] or [TypeError] otherwise). *)
Definition json_getitem_0 (v : json) : option json :=
  match v with
  | JArr (x :: _) => Some x
  | JStr (String c s) => Some (JStr (utf8_first (String c s)))
  | _ => None
  end.

Record request : Type := mkRequest {
  url : string;
  params : list (string * string);
  timeout : Z
}.

(** A response: its status code and what [response.json()] gives, [None]
    when the body is not JSON and the call raises. *)
Record response : Type := mkResponse {
  status_code : Z;
  json_body : option json
}.

(** The dictionary that the client returns. *)
Record WeatherData : Type := mkWeatherData {
  wd_temperature : json;
  wd_description : json;
  wd_city : json;
  wd_country : json
}.

(** The dictionary display of the client: each subscript may raise. *)
Definition weather_of_json (weather_data : json) : option WeatherData :=
  main ← json_getitem weather_data "main";
  temp ← json_getitem main "temp";
  weather ← json_getitem weather_data "weather";
  weather0 ← json_getitem_0 weather;
  description ← json_getitem weather0 "description";
  name ← json_getitem weather_data "name";
  sys ← json_getitem weather_data "sys";
  country ← json_getitem sys "country";
  Some (mkWeatherData temp description name country).

(** [get_current_weather_sync]: the pair it returns and the requests it
    has sent.  [requests_get] is the network: [None] when [requests.get]
    raises.  Whatever is raised inside [try] gives the last message. *)
Definition get_current_weather_sync
    (requests_get : request → option response)
    (city_name api_key : string)
    : (option WeatherData * option string) * list request :=
  if decide (api_key = "") then ((None, Some "API ключ не указан"), [])
  else
    let url := "http://api.openweathermap.org/data/2.5/weather" in
    let params :=
      [ ("q", city_name); ("appid", api_key);
        ("units", "metric"); ("lang", "ru") ] in
    let req := mkRequest url params 10 in
    (match requests_get req with
     | Some response =>
         if decide (status_code response = 200%Z) then
           match json_body response ≫= weather_of_json with
           | Some weather => (Some weather, None)
           | None => (None, Some "Ошибка подключения")
           end
         else if decide (status_code response = 401%Z) then
           (None, Some "Неверный API ключ")
         else
           (None, Some ("Ошибка: " +:+ pretty (status_code response)))
     | None => (None, Some "Ошибка подключения")
     end, [req]).

(** The test [if error:] of the caller: [None] and the empty string are
    false. *)
Definition truthy (error : option string) : bool :=
  match error with
  | Some s => bool_decide (s ≠ "")
  | None => false
  end.

(** ** Vocabulary of the statements

    What the two functions leave in the frame they return, in closed
    form ([with_stats], [with_anomaly]: see [calculate_moving_statistics_run]
    and [detect_anomalies_run]), readers of a column, and the window of the
    specification. *)

(** The order of the keys, on the elements that carry them. *)
Definition key_le {A} (key : A → Z) : relation A :=
  λ a b, (key a ≤ key b)%Z.

(** A pair of a key and a position that is the key of the element of [l]
    at that position. *)
Definition tagged {A} (key : A → Z) (l : list A) (q : Z * nat) : Prop :=
  ∃ a, l !! q.2 = Some a ∧ key a = q.1.

(** The added columns of the result, for a frame that is already sorted. *)
Definition stats_cols (df : frame) (window : Z) : gmap string column :=
  let r := mkRolling (temperature <$> rows df) window true 1 in
  let m := FloatCol (Rolling_mean r) in
  let s := FloatCol (Rolling_std r) in
  <["lower_bound" := col_sub m (col_scale 2 s)]>
    (<["upper_bound" := col_add m (col_scale 2 s)]>
       (<["rolling_std" := s]> (<["rolling_mean" := m]> (cols df)))).

Definition with_stats (df : frame) (window : Z) : frame :=
  mkFrame (rows df) (stats_cols df window).

(** The frame with the anomaly flags, from the bounds [u] and [lo]. *)
Definition with_anomaly (df : frame) (u lo : column) : frame :=
  let t := FloatCol (temperature <$> rows df) in
  frame_setitem df "anomaly" (col_or (col_gt t u) (col_lt t lo)).

(** Reading a column of a returned frame as a list of values. *)
Definition float_column (df : frame) (c : string) : list float64 :=
  match frame_getitem df c with
  | Ok col => as_float col
  | Raise _ => []
  end.

Definition bool_column (df : frame) (c : string) : list bool :=
  match frame_getitem df c with
  | Ok (BoolCol bs) => bs
  | _ => []
  end.

Definition stats_names : list string :=
  ["rolling_mean"; "rolling_std"; "upper_bound"; "lower_bound"].

(** Following the specification: the centered window of position [i] spans
    the positions from [i - floor(window/2)] to [i + ceil(window/2) - 1],
    clipped to the series, that is, those of them that exist. *)
Definition in_centered_window (window : Z) (i j : nat) : Prop :=
  (Z.of_nat i - window `div` 2 ≤ Z.of_nat j
   ∧ Z.of_nat j ≤ Z.of_nat i + - ((- window) `div` 2) - 1)%Z.

#[global] Instance in_centered_window_dec window i j :
  Decision (in_centered_window window i j).
Proof. unfold in_centered_window. apply _. Defined.

Definition centered_window {A} (window : Z) (i : nat) (xs : list A)
    : list A :=
  omap (λ j, if decide (in_centered_window window i j) then xs !! j else None)
       (seq 0 (length xs)).

Definition total_count (stats : list (string * SeasonStats)) : nat :=
  sum_list ((λ e, temperature_count e.2) <$> stats).

Definition season_names : list string :=
  ["winter"; "spring"; "summer"; "autumn"].

(** An observation is counted when its temperature is a number. *)
Definition counted (o : Obs) : Prop := is_nan (temperature o) = false.

Definition col_length (c : column) : nat :=
  match c with
  | FloatCol xs => length xs
  | BoolCol bs => length bs
  end.

(** Every added column has one value per row. *)
Definition frame_wf (df : frame) : Prop :=
  ∀ c col, cols df !! c = Some col → col_length col = length (rows df).

(** The request that the client sends for a city and a key. *)
Definition weather_request (city_name api_key : string) : request :=
  mkRequest "http://api.openweathermap.org/data/2.5/weather"
    [ ("q", city_name); ("appid", api_key);
      ("units", "metric"); ("lang", "ru") ] 10.

(** ** Example data *)

Definition obs_example : list Obs :=
  [ mkObs 2 "Berlin" (Fin 2) (Some "winter");
    mkObs 1 "Berlin" (Fin 0) (Some "winter") ].

Definition tied_a : list Obs :=
  [ mkObs 1 "Berlin" (Fin 10) (Some "winter");
    mkObs 1 "Berlin" (Fin 20) (Some "winter") ].

Definition tied_b : list Obs :=
  [ mkObs 1 "Berlin" (Fin 20) (Some "winter");
    mkObs 1 "Berlin" (Fin 10) (Some "winter") ].

Definition one_sided : frame :=
  mkFrame [mkObs 1 "Berlin" (Fin 0) (Some "winter")]
    (<["lower_bound" := FloatCol [Fin 5]]>
       (<["upper_bound" := FloatCol [NaN]]> ∅)).

Definition constant_three : list Obs :=
  [ mkObs 1 "Berlin" (Fin 10) (Some "winter");
    mkObs 2 "Berlin" (Fin 10) (Some "winter");
    mkObs 3 "Berlin" (Fin 10) (Some "winter") ].

Definition monsoon_obs : list Obs :=
  [ mkObs 1 "Berlin" (Fin 10) (Some "monsoon") ].

Definition nan_obs : list Obs :=
  [ mkObs 1 "Berlin" NaN (Some "winter") ].

Definition winter_obs : list Obs :=
  [ mkObs 1 "Berlin" (Fin 10) (Some "winter");
    mkObs 2 "Berlin" (Fin 15) (Some "winter");
    mkObs 3 "Berlin" (Fin 20) (Some "winter") ].

Definition lone_winter : list Obs :=
  [ mkObs 1 "Berlin" (Fin 10) (Some "winter") ].

(** A service that answers every request with status 404. *)
Definition not_found_service (req : request) : option response :=
  Some (mkResponse 404 None).

(** A body as the weather service sends it, reduced to the fields read. *)
Definition berlin_body : json :=
  JObj (<["main" := JObj (<["temp" := JNum (Fin 3)]> ∅)]>
       (<["weather" := JArr [JObj (<["description" := JStr "ясно"]> ∅)]]>
       (<["name" := JStr "Berlin"]>
       (<["sys" := JObj (<["country" := JStr "DE"]> ∅)]> ∅)))).

Definition berlin_service (req : request) : option response :=
  Some (mkResponse 200 (Some berlin_body)).

(** * Properties *)

(** ** The model on small inputs *)

(** Five values, window 3: the windows of the positions 0, 2 and 4. *)
Example window_bounds_3 :
  window_bounds 5 3 true 0 = (0, 2)%Z
  ∧ window_bounds 5 3 true 2 = (1, 4)%Z
  ∧ window_bounds 5 3 true 4 = (3, 5)%Z.
Proof. by split_and!. Qed.

(** Five values, window 4: one more position before than after. *)
Example window_bounds_4 :
  window_bounds 5 4 true 0 = (0, 2)%Z
  ∧ window_bounds 5 4 true 2 = (0, 4)%Z
  ∧ window_bounds 5 4 true 4 = (2, 5)%Z.
Proof. by split_and!. Qed.

Example argsort_ties : argsort [3; 1; 3; 2; 1]%Z = [1; 4; 3; 0; 2].
Proof. reflexivity. Qed.

Example rolling_rejects_window_0 :
  rolling [NaN] 0 true 1 = Raise ValueError.
Proof. reflexivity. Qed.

Example month_to_season_table :
  month_to_season <$> [1; 2; 3; 4; 5; 6; 7; 8; 9; 10; 11; 12; 13]%Z
  = [ "winter"; "winter"; "spring"; "spring"; "spring"; "summer"; "summer";
      "summer"; "autumn"; "autumn"; "autumn"; "winter"; "unknown" ].
Proof. reflexivity. Qed.

Example group_keys_sorted :
  group_keys
    [ mkObs 1 "Berlin" NaN (Some "winter"); mkObs 2 "Berlin" NaN None;
      mkObs 3 "Berlin" NaN (Some "autumn"); mkObs 4 "Berlin" NaN (Some "winter") ]
  = ["autumn"; "winter"].
Proof. reflexivity. Qed.

(** ** Sorting *)

Section sorting.
Context {A : Type} (key : A → Z).

#[local] Instance key_le_trans : Transitive (key_le key).
Proof. unfold key_le. intros a b c ??. lia. Qed.

Lemma insert_by_perm x l : insert_by key x l ≡ₚ x :: l.
Proof.
  induction l as [|y l IH]; simpl; [done|].
  case_decide; [done|]. rewrite IH. apply Permutation_swap.
Qed.

Lemma sort_by_perm l : sort_by key l ≡ₚ l.
Proof.
  induction l as [|x l IH]; simpl; [done|].
  by rewrite insert_by_perm, IH.
Qed.

Lemma sort_by_length l : length (sort_by key l) = length l.
Proof. by rewrite sort_by_perm. Qed.

Lemma insert_by_sorted x l :
  Sorted (key_le key) l → Sorted (key_le key) (insert_by key x l).
Proof.
  induction 1 as [|y l Hl IH Hy]; simpl.
  - by repeat constructor.
  - case_decide as Hxy.
    + by repeat constructor.
    + constructor; [done|].
      destruct Hy as [|z l' Hyz]; simpl.
      * constructor. unfold key_le. lia.
      * case_decide; constructor; unfold key_le in *; lia.
Qed.

Lemma sort_by_sorted l : Sorted (key_le key) (sort_by key l).
Proof.
  induction l as [|x l IH]; simpl; [constructor|].
  by apply insert_by_sorted.
Qed.

(** The sort is stable: it leaves a sorted list as it is. *)
Lemma sort_by_id l : Sorted (key_le key) l → sort_by key l = l.
Proof.
  induction 1 as [|x l Hl IH Hx]; simpl; [done|].
  rewrite IH. destruct Hx as [|y l' Hxy]; simpl; [done|].
  by rewrite decide_True.
Qed.

(** With pairwise distinct keys the sorted order does not depend on the
    input order. *)
Lemma sort_by_perm_eq l1 l2 :
  NoDup (key <$> l1) → l1 ≡ₚ l2 → sort_by key l1 = sort_by key l2.
Proof.
  intros Hnd Hp.
  apply (Sorted_unique_strong (key_le key)); [|apply sort_by_sorted..|].
  - intros a b Ha Hb Hab Hba.
    rewrite sort_by_perm in Ha. rewrite sort_by_perm, <-Hp in Hb.
    assert (key a = key b) as Hk by (unfold key_le in *; lia).
    clear Hab Hba Hp. induction l1 as [|c l1 IH]; [by inv Ha|].
    simpl in Hnd. apply NoDup_cons in Hnd as [Hc Hnd].
    inv Ha; inv Hb; [done| | |by apply IH].
    + destruct Hc. rewrite Hk. by apply list_elem_of_fmap_2.
    + destruct Hc. rewrite <-Hk. by apply list_elem_of_fmap_2.
  - by rewrite !sort_by_perm.
Qed.
End sorting.

(** Taking the rows at the sorted positions sorts the rows. *)
Section argsort.
Context {A : Type} (key : A → Z) (l : list A).

Lemma take_rows_cons i a p :
  l !! i = Some a → take_rows (i :: p) l = a :: take_rows p l.
Proof. intros Hi. unfold take_rows. simpl. by rewrite Hi. Qed.

Lemma take_insert_by q a Q :
  l !! q.2 = Some a → key a = q.1 → Forall (tagged key l) Q →
  take_rows (snd <$> insert_by fst q Q) l
  = insert_by key a (take_rows (snd <$> Q) l).
Proof.
  intros Hq Hk. induction 1 as [|p Q [b [Hp Hb]] HQ IH].
  - by apply take_rows_cons.
  - rewrite fmap_cons, (take_rows_cons _ b) by done.
    cbn [insert_by]. case_decide as Hle.
    + rewrite decide_True by lia.
      by rewrite !fmap_cons, (take_rows_cons _ a), (take_rows_cons _ b).
    + rewrite decide_False by lia.
      by rewrite fmap_cons, (take_rows_cons _ b), IH.
Qed.

Lemma take_sort_by Q :
  Forall (tagged key l) Q →
  take_rows (snd <$> sort_by fst Q) l
  = sort_by key (take_rows (snd <$> Q) l).
Proof.
  induction 1 as [|q Q [a [Hq Ha]] HQ IH]; [done|].
  change (sort_by fst (q :: Q)) with (insert_by fst q (sort_by fst Q)).
  rewrite (take_insert_by q a); [|done..|].
  - by rewrite IH, fmap_cons, (take_rows_cons _ a).
  - by rewrite sort_by_perm.
Qed.
End argsort.

Lemma take_rows_seq {A} (l1 l2 : list A) :
  take_rows (seq (length l1) (length l2)) (l1 ++ l2) = l2.
Proof.
  revert l1. induction l2 as [|x l2 IH]; intros l1; [done|].
  cbn [length seq].
  rewrite (take_rows_cons _ _ x) by (by apply list_lookup_middle).
  f_equal.
  replace (l1 ++ x :: l2) with ((l1 ++ [x]) ++ l2) by (by rewrite <-app_assoc).
  replace (S (length l1)) with (length (l1 ++ [x]))
    by (rewrite length_app; simpl; lia).
  apply IH.
Qed.

Lemma tagged_zip {A} (key : A → Z) (l1 l2 : list A) :
  Forall (tagged key (l1 ++ l2))
    (zip (key <$> l2) (seq (length l1) (length l2))).
Proof.
  revert l1. induction l2 as [|x l2 IH]; intros l1; [constructor|].
  cbn [length seq fmap list_fmap zip zip_with]. constructor.
  - exists x. simpl. by rewrite list_lookup_middle.
  - replace (l1 ++ x :: l2) with ((l1 ++ [x]) ++ l2)
      by (by rewrite <-app_assoc).
    replace (S (length l1)) with (length (l1 ++ [x]))
      by (rewrite length_app; simpl; lia).
    apply IH.
Qed.

Lemma take_rows_argsort {A} (key : A → Z) (l : list A) :
  take_rows (argsort (key <$> l)) l = sort_by key l.
Proof.
  unfold argsort. rewrite length_fmap.
  rewrite (take_sort_by key l).
  - rewrite snd_zip by (rewrite length_fmap, length_seq; lia).
    f_equal. apply (take_rows_seq [] l).
  - apply (tagged_zip key [] l).
Qed.

Lemma frame_sort_index_rows df :
  rows (frame_sort_index df) = sort_by timestamp (rows df).
Proof. apply take_rows_argsort. Qed.

Lemma frame_sort_index_raw obs :
  frame_sort_index (raw obs) = raw (sort_by timestamp obs).
Proof.
  unfold frame_sort_index, raw. simpl.
  by rewrite take_rows_argsort, fmap_empty.
Qed.

(** ** Running the program on a heap *)

Lemma bind_ok {A B} (m : M A) (k : A → M B) h a h' :
  m h = (Ok a, h') → (m ≫= k) h = k a h'.
Proof. intros Hm. unfold mbind, M_bind. by rewrite Hm. Qed.

Lemma bind_raise {A B} (m : M A) (k : A → M B) h e h' :
  m h = (Raise e, h') → (m ≫= k) h = (Raise e, h').
Proof. intros Hm. unfold mbind, M_bind. by rewrite Hm. Qed.

Lemma sort_index_run h l df :
  h !! l = Some df →
  sort_index l h = (Ok (length h), h ++ [frame_sort_index df]).
Proof. intros Hl. unfold sort_index, load, mbind, M_bind. by rewrite Hl. Qed.

Lemma copy_run h l df :
  h !! l = Some df → copy l h = (Ok (length h), h ++ [df]).
Proof. intros Hl. unfold copy, load, mbind, M_bind. by rewrite Hl. Qed.

Lemma getitem_run h l df c :
  h !! l = Some df → getitem l c h = (frame_getitem df c, h).
Proof. intros Hl. unfold getitem, load, mbind, M_bind. by rewrite Hl. Qed.

Lemma setitem_run h l df c col :
  h !! l = Some df →
  setitem l c col h = (Ok (), <[l := frame_setitem df c col]> h).
Proof. intros Hl. unfold setitem, load, mbind, M_bind. by rewrite Hl. Qed.

Lemma heap_lookup_new (h : heap) df : (h ++ [df]) !! length h = Some df.
Proof. by apply list_lookup_middle. Qed.

Lemma heap_insert_new (h : heap) df df' :
  <[length h := df']> (h ++ [df]) = h ++ [df'].
Proof.
  rewrite insert_app_r_alt by done. by rewrite Nat.sub_diag.
Qed.

Lemma rolling_ok obj window center :
  (1 ≤ window)%Z →
  rolling obj window center 1 = Ok (mkRolling obj window center 1).
Proof.
  intros Hw. unfold rolling.
  rewrite decide_False by lia. by rewrite decide_False by lia.
Qed.

Lemma rolling_raise obj window center :
  (window < 1)%Z → rolling obj window center 1 = Raise ValueError.
Proof.
  intros Hw. unfold rolling.
  case_decide; [done|]. by rewrite decide_True by lia.
Qed.

Lemma frame_getitem_temperature df :
  frame_getitem df "temperature" = Ok (FloatCol (temperature <$> rows df)).
Proof. done. Qed.

Lemma frame_getitem_setitem_eq df c col :
  c ≠ "temperature" → frame_getitem (frame_setitem df c col) c = Ok col.
Proof.
  intros Hc. unfold frame_getitem, frame_setitem. simpl.
  rewrite decide_False by done. by rewrite lookup_insert_eq.
Qed.

Lemma frame_getitem_setitem_ne df c c' col :
  c ≠ c' → c ≠ "temperature" →
  frame_getitem (frame_setitem df c' col) c = frame_getitem df c.
Proof.
  intros Hc Ht. unfold frame_getitem, frame_setitem. simpl.
  rewrite !decide_False by done. by rewrite lookup_insert_ne.
Qed.

Lemma calculate_moving_statistics_run h l df window :
  h !! l = Some df → (1 ≤ window)%Z →
  calculate_moving_statistics l window h
  = (Ok (S (length h)),
     h ++ [frame_sort_index df; with_stats (frame_sort_index df) window]).
Proof.
  intros Hl Hw. unfold calculate_moving_statistics.
  set (s := frame_sort_index df).
  rewrite (bind_ok _ _ _ _ _ (sort_index_run h l df Hl)).
  rewrite (bind_ok _ _ _ _ _ (copy_run _ _ _ (heap_lookup_new h s))).
  rewrite length_app, Nat.add_1_r. cbn [length].
  assert (∀ d, ((h ++ [s]) ++ [d]) !! S (length h) = Some d) as Hd.
  { intros d. rewrite <-(heap_lookup_new (h ++ [s]) d).
    f_equal. rewrite length_app. simpl. lia. }
  assert (∀ d d', <[S (length h) := d']> ((h ++ [s]) ++ [d])
                  = (h ++ [s]) ++ [d']) as Hi.
  { intros d d'. rewrite <-(heap_insert_new (h ++ [s]) d d').
    f_equal. rewrite length_app. simpl. lia. }
  repeat first
    [ erewrite bind_ok;
        [|erewrite getitem_run by apply Hd;
          rewrite ?frame_getitem_setitem_ne by done;
          rewrite ?frame_getitem_setitem_eq by done;
          rewrite ?frame_getitem_temperature; reflexivity]
    | erewrite bind_ok; [|by unfold lift; rewrite rolling_ok by done]
    | erewrite bind_ok; [|by erewrite setitem_run by apply Hd]
    | rewrite Hi ].
  unfold mret, M_ret. f_equal. by rewrite <-app_assoc.
Qed.

Lemma calculate_moving_statistics_invalid h l df window :
  h !! l = Some df → (window < 1)%Z →
  calculate_moving_statistics l window h
  = (Raise ValueError, h ++ [frame_sort_index df; frame_sort_index df]).
Proof.
  intros Hl Hw. unfold calculate_moving_statistics.
  set (s := frame_sort_index df).
  rewrite (bind_ok _ _ _ _ _ (sort_index_run h l df Hl)).
  rewrite (bind_ok _ _ _ _ _ (copy_run _ _ _ (heap_lookup_new h s))).
  erewrite bind_ok;
    [|by erewrite getitem_run by apply (heap_lookup_new (h ++ [s]) s)].
  erewrite bind_raise;
    [|by unfold lift; rewrite rolling_raise by done].
  by rewrite <-app_assoc.
Qed.

Lemma calculate_moving_statistics_dangling h l window :
  h !! l = None →
  calculate_moving_statistics l window h = (Raise DanglingRef, h).
Proof.
  intros Hl. unfold calculate_moving_statistics.
  erewrite bind_raise; [done|].
  unfold sort_index, load, mbind, M_bind. by rewrite Hl.
Qed.

Lemma detect_anomalies_run h l df u lo :
  h !! l = Some df →
  frame_getitem df "upper_bound" = Ok u →
  frame_getitem df "lower_bound" = Ok lo →
  detect_anomalies l h = (Ok (length h), h ++ [with_anomaly df u lo]).
Proof.
  intros Hl Hu Hlo. unfold detect_anomalies.
  rewrite (bind_ok _ _ _ _ _ (copy_run _ _ _ Hl)).
  repeat (erewrite bind_ok;
    [|erewrite getitem_run by apply heap_lookup_new;
      rewrite ?Hu, ?Hlo, ?frame_getitem_temperature; reflexivity]).
  erewrite bind_ok; [|by erewrite setitem_run by apply heap_lookup_new].
  by rewrite heap_insert_new.
Qed.

(** Whatever happens, the frames that were on the heap stay as they were:
    the heap only grows. *)
Lemma calculate_moving_statistics_grows h l window :
  ∃ k, (calculate_moving_statistics l window h).2 = h ++ k.
Proof.
  destruct (h !! l) as [df|] eqn:Hl.
  - destruct (decide (1 ≤ window)%Z).
    + rewrite (calculate_moving_statistics_run h l df) by done. by eexists.
    + rewrite (calculate_moving_statistics_invalid h l df) by (done || lia).
      by eexists.
  - rewrite calculate_moving_statistics_dangling by done.
    exists []. by rewrite app_nil_r.
Qed.

Lemma detect_anomalies_grows h l :
  ∃ k, (detect_anomalies l h).2 = h ++ k.
Proof.
  unfold detect_anomalies.
  destruct (h !! l) as [df|] eqn:Hl.
  - rewrite (bind_ok _ _ _ _ _ (copy_run _ _ _ Hl)).
    erewrite bind_ok;
      [|erewrite getitem_run by apply heap_lookup_new;
        rewrite frame_getitem_temperature; reflexivity].
    destruct (frame_getitem df "upper_bound") as [u|e] eqn:Hu.
    + erewrite bind_ok;
        [|erewrite getitem_run by apply heap_lookup_new;
          rewrite Hu; reflexivity].
      erewrite bind_ok;
        [|erewrite getitem_run by apply heap_lookup_new;
          rewrite frame_getitem_temperature; reflexivity].
      destruct (frame_getitem df "lower_bound") as [lo|e] eqn:Hlo.
      * erewrite bind_ok;
          [|erewrite getitem_run by apply heap_lookup_new;
            rewrite Hlo; reflexivity].
        erewrite bind_ok;
          [|by erewrite setitem_run by apply heap_lookup_new].
        rewrite heap_insert_new. by eexists.
      * erewrite bind_raise;
          [|erewrite getitem_run by apply heap_lookup_new;
            rewrite Hlo; reflexivity].
        by eexists.
    + erewrite bind_raise;
        [|erewrite getitem_run by apply heap_lookup_new;
          rewrite Hu; reflexivity].
      by eexists.
  - erewrite bind_raise.
    + exists []. by rewrite app_nil_r.
    + unfold copy, load, mbind, M_bind. by rewrite Hl.
Qed.

Lemma call_calculate_moving_statistics_ok df window :
  (1 ≤ window)%Z →
  call_calculate_moving_statistics df window
  = Ok (with_stats (frame_sort_index df) window).
Proof.
  intros Hw. unfold call_calculate_moving_statistics.
  by rewrite (calculate_moving_statistics_run [df] 0 df).
Qed.

Lemma call_calculate_moving_statistics_invalid df window :
  (window < 1)%Z →
  call_calculate_moving_statistics df window = Raise ValueError.
Proof.
  intros Hw. unfold call_calculate_moving_statistics.
  by rewrite (calculate_moving_statistics_invalid [df] 0 df).
Qed.

Lemma call_detect_anomalies_ok df u lo :
  frame_getitem df "upper_bound" = Ok u →
  frame_getitem df "lower_bound" = Ok lo →
  call_detect_anomalies df = Ok (with_anomaly df u lo).
Proof.
  intros Hu Hlo. unfold call_detect_anomalies.
  by rewrite (detect_anomalies_run [df] 0 df u lo).
Qed.

(** ** The rolling baseline *)

Lemma Rolling_apply_length f r :
  length (Rolling_apply f r) = length (r_obj r).
Proof. unfold Rolling_apply. by rewrite length_fmap, length_seq. Qed.

Lemma float_column_with_stats df window :
  let r := mkRolling (temperature <$> rows df) window true 1 in
  float_column (with_stats df window) "rolling_mean" = Rolling_mean r
  ∧ float_column (with_stats df window) "rolling_std" = Rolling_std r
  ∧ float_column (with_stats df window) "upper_bound"
    = zip_with fadd (Rolling_mean r) (fmul (Fin 2) <$> Rolling_std r)
  ∧ float_column (with_stats df window) "lower_bound"
    = zip_with fsub (Rolling_mean r) (fmul (Fin 2) <$> Rolling_std r).
Proof.
  unfold float_column, frame_getitem, with_stats, stats_cols. simpl.
  repeat split; by simplify_map_eq.
Qed.

Lemma float_column_with_stats_length df window c :
  c ∈ stats_names →
  length (float_column (with_stats df window) c) = length (rows df).
Proof.
  destruct (float_column_with_stats df window) as (Hm & Hs & Hu & Hl).
  unfold stats_names. rewrite !elem_of_cons, elem_of_nil.
  intros [->|[->|[->|[->|[]]]]].
  - rewrite Hm. unfold Rolling_mean.
    by rewrite Rolling_apply_length; simpl; rewrite length_fmap.
  - rewrite Hs. unfold Rolling_std.
    by rewrite Rolling_apply_length; simpl; rewrite length_fmap.
  - rewrite Hu, length_zip_with, length_fmap. unfold Rolling_mean, Rolling_std.
    rewrite !Rolling_apply_length. simpl. rewrite length_fmap. lia.
  - rewrite Hl, length_zip_with, length_fmap. unfold Rolling_mean, Rolling_std.
    rewrite !Rolling_apply_length. simpl. rewrite length_fmap. lia.
Qed.

(** C5 -- length preservation.  For every frame and every window size from
    1 up to the 64-bit limit the call returns a frame (it does not raise)
    whose rows are the input observations, each with its timestamp, city,
    temperature and season, every one as often as in the input; there are
    as many rows, and as many values in each of the four added columns, as
    there are input observations.  An empty input gives an empty result. *)
Theorem baseline_one_record_per_observation (df : frame) (window : Z) :
  (1 ≤ window)%Z → (window < 2 ^ 63)%Z →
  ∃ out,
    call_calculate_moving_statistics df window = Ok out
    ∧ rows out ≡ₚ rows df
    ∧ length (rows out) = length (rows df)
    ∧ (∀ c, c ∈ stats_names →
         length (float_column out c) = length (rows df))
    ∧ (rows df = [] → rows out = []).
Proof.
  intros Hw _. eexists.
  split; [by apply call_calculate_moving_statistics_ok|].
  assert (rows (with_stats (frame_sort_index df) window)
          = sort_by timestamp (rows df)) as Hr
    by apply frame_sort_index_rows.
  rewrite Hr. split_and!; [apply sort_by_perm|apply sort_by_length| |].
  - intros c Hc. rewrite float_column_with_stats_length by done.
    by rewrite frame_sort_index_rows, sort_by_length.
  - by intros ->.
Qed.

Lemma baseline_one_record_per_observation_witness :
  (1 ≤ 3)%Z ∧ (3 < 2 ^ 63)%Z ∧
  ∃ out,
    call_calculate_moving_statistics (raw obs_example) 3 = Ok out
    ∧ rows out ≡ₚ rows (raw obs_example)
    ∧ length (rows out) = length (rows (raw obs_example))
    ∧ (∀ c, c ∈ stats_names →
         length (float_column out c) = length (rows (raw obs_example)))
    ∧ (rows (raw obs_example) = [] → rows out = []).
Proof.
  split; [lia|]. split; [lia|].
  apply (baseline_one_record_per_observation (raw obs_example) 3); lia.
Defined.

Example centered_window_odd :
  centered_window 3 1 [10; 11; 12; 13; 14] = [10; 11; 12].
Proof. reflexivity. Qed.

Example centered_window_even :
  centered_window 4 2 [10; 11; 12; 13; 14] = [10; 11; 12; 13].
Proof. reflexivity. Qed.

Example centered_window_clipped :
  centered_window 4 0 [10; 11; 12; 13; 14] = [10; 11]
  ∧ centered_window 4 4 [10; 11; 12; 13; 14] = [12; 13; 14].
Proof. split; reflexivity. Qed.

Lemma omap_seq_shift {B} (F G : nat → option B) n :
  (∀ j, j < n → F (S j) = G j) → omap F (seq 1 n) = omap G (seq 0 n).
Proof.
  intros HFG. apply list_omap_ext. rewrite <-fmap_S_seq.
  apply Forall2_fmap_l, Forall_Forall2_diag, Forall_forall.
  intros j Hj%elem_of_seq. apply HFG. lia.
Qed.

(** A slice is the list of the values whose position lies between its
    bounds. *)
Lemma slice_positions {A} (xs : list A) (a b : nat) :
  a ≤ b → b ≤ length xs →
  take (b - a) (drop a xs)
  = omap (λ j, if decide (a ≤ j < b) then xs !! j else None)
         (seq 0 (length xs)).
Proof.
  revert a b. induction xs as [|x xs IH]; intros a b Hab Hb.
  { by rewrite drop_nil, take_nil. }
  cbn [length seq]. cbn [length] in Hb. csimpl.
  destruct a as [|a], b as [|b]; try lia.
  - rewrite decide_False by lia.
    transitivity (take (0 - 0) (drop 0 xs)); [done|].
    rewrite (IH 0 0) by lia. symmetry. apply omap_seq_shift.
    intros j Hj. by rewrite !decide_False by lia.
  - rewrite decide_True by lia.
    transitivity (x :: take (b - 0) (drop 0 xs));
      [simpl; by rewrite ?Nat.sub_0_r|].
    simpl. f_equal.
    rewrite (IH 0 b) by lia. symmetry. apply omap_seq_shift.
    intros j Hj. destruct (decide (0 ≤ j < b)).
    + by rewrite decide_True by lia.
    + by rewrite decide_False by lia.
  - rewrite decide_False by lia.
    transitivity (take (b - a) (drop a xs)); [done|].
    rewrite (IH a b) by lia. symmetry. apply omap_seq_shift.
    intros j Hj. destruct (decide (a ≤ j < b)).
    + by rewrite decide_True by lia.
    + by rewrite decide_False by lia.
Qed.

Lemma slice_centered {A} (xs : list A) window i :
  (1 ≤ window)%Z → i < length xs →
  slice (window_bounds (Z.of_nat (length xs)) window true (Z.of_nat i)).1
        (window_bounds (Z.of_nat (length xs)) window true (Z.of_nat i)).2 xs
  = centered_window window i xs.
Proof.
  intros Hw Hi. unfold window_bounds, slice, centered_window. simpl.
  set (n := Z.of_nat (length xs)).
  set (e := clip 0 n (Z.of_nat i + 1 + (window - 1) `div` 2)).
  set (s := clip 0 n (Z.of_nat i + 1 + (window - 1) `div` 2 - window)).
  assert (0 ≤ s ∧ s ≤ e ∧ e ≤ n)%Z as (Hs & Hse & He)
    by (unfold s, e, clip, n; lia).
  rewrite Z2Nat.inj_sub by done.
  rewrite slice_positions by lia.
  apply list_omap_ext, Forall_Forall2_diag, Forall_forall.
  intros j Hj%elem_of_seq.
  assert ((Z.to_nat s ≤ j < Z.to_nat e) ↔ in_centered_window window i j)
    as Hiff.
  { unfold in_centered_window, s, e, clip, n in *.
    Z.div_mod_to_equations. lia. }
  destruct (decide (Z.to_nat s ≤ j < Z.to_nat e)) as [Hin|Hout].
  - by rewrite decide_True by (by apply Hiff).
  - by rewrite decide_False by (by rewrite <-Hiff).
Qed.

Lemma window_at_centered obj window mp i :
  (1 ≤ window)%Z → i < length obj →
  window_at (mkRolling obj window true mp) i = centered_window window i obj.
Proof.
  intros Hw Hi. rewrite <-slice_centered by done.
  unfold window_at. simpl.
  by destruct (window_bounds (Z.of_nat (length obj)) window true (Z.of_nat i)).
Qed.

Lemma window_agg_mean w : window_agg 1 series_mean w = series_mean w.
Proof.
  unfold window_agg, series_mean. case_decide as Hn; [done|].
  by rewrite decide_False by lia.
Qed.

Lemma window_agg_std w : window_agg 1 (series_std 1) w = series_std 1 w.
Proof.
  unfold window_agg, series_std. case_decide as Hn; [done|].
  by rewrite decide_False by lia.
Qed.

Lemma Rolling_apply_lookup f obj window mp i :
  (1 ≤ window)%Z → i < length obj →
  Rolling_apply f (mkRolling obj window true mp) !! i
  = Some (window_agg mp f (centered_window window i obj)).
Proof.
  intros Hw Hi. unfold Rolling_apply.
  rewrite list_lookup_fmap, lookup_seq_lt by done. simpl.
  by rewrite window_at_centered.
Qed.

Lemma baseline_rows df window :
  rows (with_stats (frame_sort_index df) window)
  = sort_by timestamp (rows df).
Proof. apply frame_sort_index_rows. Qed.

Lemma baseline_lookup df window i :
  (1 ≤ window)%Z → i < length (rows df) →
  let w := centered_window window i
             (temperature <$> sort_by timestamp (rows df)) in
  float_column (with_stats (frame_sort_index df) window) "rolling_mean" !! i
  = Some (series_mean w)
  ∧ float_column (with_stats (frame_sort_index df) window) "rolling_std" !! i
    = Some (series_std 1 w).
Proof.
  intros Hw Hi.
  destruct (float_column_with_stats (frame_sort_index df) window)
    as (Hm & Hs & _).
  rewrite Hm, Hs. unfold Rolling_mean, Rolling_std.
  rewrite frame_sort_index_rows.
  assert (i < length (temperature <$> sort_by timestamp (rows df))) as Hi'.
  { by rewrite length_fmap, sort_by_length. }
  rewrite !Rolling_apply_lookup by done.
  by rewrite window_agg_mean, window_agg_std.
Qed.

(** C1 -- the centered window.  For every frame, every window size of at
    least 1 and every position [i] of the sorted series, the rolling mean
    at [i] is the mean, and the rolling standard deviation at [i] is the
    sample standard deviation, of the temperatures at the positions from
    [i - floor(window/2)] to [i + ceil(window/2) - 1] that exist in the
    series, and of no others. *)
Theorem rolling_statistics_over_centered_window
    (df : frame) (window : Z) (i : nat) :
  (1 ≤ window)%Z → i < length (rows df) →
  ∃ out,
    call_calculate_moving_statistics df window = Ok out
    ∧ float_column out "rolling_mean" !! i
      = Some (series_mean
                (centered_window window i (temperature <$> rows out)))
    ∧ float_column out "rolling_std" !! i
      = Some (series_std 1
                (centered_window window i (temperature <$> rows out))).
Proof.
  intros Hw Hi. eexists.
  split; [by apply call_calculate_moving_statistics_ok|].
  rewrite baseline_rows. by apply baseline_lookup.
Qed.

Lemma rolling_statistics_over_centered_window_witness :
  (1 ≤ 3)%Z ∧ 1 < length (rows (raw obs_example)) ∧
  ∃ out,
    call_calculate_moving_statistics (raw obs_example) 3 = Ok out
    ∧ float_column out "rolling_mean" !! 1
      = Some (series_mean (centered_window 3 1 (temperature <$> rows out)))
    ∧ float_column out "rolling_std" !! 1
      = Some (series_std 1
                (centered_window 3 1 (temperature <$> rows out))).
Proof.
  split; [lia|]. split; [simpl; lia|].
  apply (rolling_statistics_over_centered_window (raw obs_example) 3 1);
    [lia|simpl; lia].
Defined.

(** ** Oversized windows *)

Lemma centered_window_full {A} (window : Z) (i : nat) (xs : list A) :
  (2 * Z.of_nat (length xs) - 1 ≤ window)%Z → i < length xs →
  centered_window window i xs = xs.
Proof.
  intros Hw Hi.
  transitivity (take_rows (seq 0 (length xs)) xs);
    [|apply (take_rows_seq [] xs)].
  unfold centered_window, take_rows.
  apply list_omap_ext, Forall_Forall2_diag, Forall_forall.
  intros j Hj%elem_of_seq. rewrite decide_True; [done|].
  unfold in_centered_window. Z.div_mod_to_equations. lia.
Qed.

Lemma Rolling_apply_full f obj window mp :
  (1 ≤ window)%Z → (2 * Z.of_nat (length obj) - 1 ≤ window)%Z →
  Rolling_apply f (mkRolling obj window true mp)
  = replicate (length obj) (window_agg mp f obj).
Proof.
  intros Hw Hn. apply list_eq. intros i.
  destruct (decide (i < length obj)) as [Hi|Hi].
  - rewrite Rolling_apply_lookup, lookup_replicate_2 by done.
    by rewrite centered_window_full.
  - rewrite !lookup_ge_None_2; [done|..].
    + rewrite length_replicate. lia.
    + rewrite Rolling_apply_length. simpl. lia.
Qed.

Lemma with_stats_full df window window' :
  (1 ≤ window)%Z → (1 ≤ window')%Z →
  (2 * Z.of_nat (length (rows df)) - 1 ≤ window)%Z →
  (2 * Z.of_nat (length (rows df)) - 1 ≤ window')%Z →
  with_stats df window = with_stats df window'.
Proof.
  intros. unfold with_stats, stats_cols, Rolling_mean, Rolling_std.
  by rewrite !Rolling_apply_full by (by rewrite ?length_fmap).
Qed.

Lemma sorted_obs_example :
  sort_by timestamp obs_example
  = [ mkObs 1 "Berlin" (Fin 0) (Some "winter");
      mkObs 2 "Berlin" (Fin 2) (Some "winter") ].
Proof. reflexivity. Qed.

(** C3, as stated, fails: two observations with temperatures 0 and 2.  A
    window of 3 exceeds the length 2, yet the result differs from that of a
    window of 2: at position 0 the window of 3 holds both observations
    (mean 1), the window of 2 only the first (mean 0). *)
Lemma clamping_to_length_fails :
  (Z.of_nat (length (rows (raw obs_example))) < 3)%Z
  ∧ call_calculate_moving_statistics (raw obs_example) 3
    ≠ call_calculate_moving_statistics (raw obs_example)
        (Z.of_nat (length (rows (raw obs_example)))).
Proof.
  split; [simpl; lia|]. intros Heq.
  change (Z.of_nat (length (rows (raw obs_example)))) with 2%Z in Heq.
  rewrite !call_calculate_moving_statistics_ok in Heq by lia.
  apply (f_equal (λ r, match r with
                       | Ok out => float_column out "rolling_mean" !! 0
                       | Raise _ => None
                       end)) in Heq.
  cbv beta iota in Heq.
  destruct (baseline_lookup (raw obs_example) 3 0) as [Hm3 _];
    [lia|simpl; lia|].
  destruct (baseline_lookup (raw obs_example) 2 0) as [Hm2 _];
    [lia|simpl; lia|].
  rewrite Hm3, Hm2 in Heq. simpl in Heq.
  injection Heq as Hm. unfold mean_of in Hm. simpl in Hm. lra.
Qed.

(** C3, amended -- the clamping law holds from [2 * length - 1] on, below
    the 64-bit limit.  For every frame of [n] observations and every window
    size of at least 1 and at least [2n - 1] that is less than [2 ^ 63],
    the call returns a frame (no error) in which the window of every
    position is the whole sorted series: each rolling mean is the mean,
    each rolling standard deviation the sample standard deviation, of all
    temperatures; and every other window size of at least 1 and at least
    [2n - 1] that is less than [2 ^ 63] returns the same frame. *)
Theorem oversized_window_is_whole_series (df : frame) (window : Z) :
  (1 ≤ window)%Z → (window < 2 ^ 63)%Z →
  (2 * Z.of_nat (length (rows df)) - 1 ≤ window)%Z →
  ∃ out,
    call_calculate_moving_statistics df window = Ok out
    ∧ (∀ i, i < length (rows df) →
         float_column out "rolling_mean" !! i
         = Some (series_mean (temperature <$> rows out))
         ∧ float_column out "rolling_std" !! i
           = Some (series_std 1 (temperature <$> rows out)))
    ∧ (∀ window',
         (1 ≤ window')%Z → (window' < 2 ^ 63)%Z →
         (2 * Z.of_nat (length (rows df)) - 1 ≤ window')%Z →
         call_calculate_moving_statistics df window' = Ok out).
Proof.
  intros Hw _ Hn. eexists.
  split; [by apply call_calculate_moving_statistics_ok|]. split.
  - intros i Hi. rewrite baseline_rows.
    destruct (baseline_lookup df window i) as [Hm Hs]; [done..|].
    rewrite centered_window_full in Hm, Hs;
      by rewrite ?length_fmap, ?sort_by_length.
  - intros window' Hw' _ Hn'.
    rewrite call_calculate_moving_statistics_ok by done. f_equal.
    apply with_stats_full; try done;
      by rewrite frame_sort_index_rows, sort_by_length.
Qed.

Lemma oversized_window_is_whole_series_witness :
  (1 ≤ 3)%Z ∧ (3 < 2 ^ 63)%Z ∧
  (2 * Z.of_nat (length (rows (raw obs_example))) - 1 ≤ 3)%Z ∧
  ∃ out,
    call_calculate_moving_statistics (raw obs_example) 3 = Ok out
    ∧ (∀ i, i < length (rows (raw obs_example)) →
         float_column out "rolling_mean" !! i
         = Some (series_mean (temperature <$> rows out))
         ∧ float_column out "rolling_std" !! i
           = Some (series_std 1 (temperature <$> rows out)))
    ∧ (∀ window',
         (1 ≤ window')%Z → (window' < 2 ^ 63)%Z →
         (2 * Z.of_nat (length (rows (raw obs_example))) - 1 ≤ window')%Z →
         call_calculate_moving_statistics (raw obs_example) window' = Ok out).
Proof.
  split; [lia|]. split; [lia|]. split; [simpl; lia|].
  apply (oversized_window_is_whole_series (raw obs_example) 3);
    [lia|lia|simpl; lia].
Defined.

(** ** The order of the input *)

(** C4, as stated, fails: two observations with the same timestamp and the
    temperatures 10 and 20.  Either order of the two is in ascending
    timestamp order already and comes back as it is, so the shuffled input
    gives the rows in the order 20, 10 and the sorted series gives them in
    the order 10, 20. *)
Lemma sort_invariance_fails_on_ties :
  tied_b ≡ₚ tied_a
  ∧ call_calculate_moving_statistics (raw tied_b) 1
    ≠ call_calculate_moving_statistics (raw (sort_by timestamp tied_a)) 1.
Proof.
  split; [apply Permutation_swap|]. intros Heq.
  rewrite !call_calculate_moving_statistics_ok in Heq by lia.
  apply (f_equal (λ r, match r with
                       | Ok out => temperature <$> rows out
                       | Raise _ => []
                       end)) in Heq.
  cbv beta iota in Heq. rewrite !baseline_rows in Heq.
  injection Heq as Heq _. lra.
Qed.

Lemma sort_by_idemp {A} (key : A → Z) (l : list A) :
  sort_by key (sort_by key l) = sort_by key l.
Proof. apply sort_by_id, sort_by_sorted. Qed.

(** C4, amended -- sort invariance for distinct timestamps.  For every
    series whose timestamps are pairwise distinct, every shuffle of it and
    every window size, the call on the shuffle returns what the call on the
    timestamp-sorted series returns.  With repeated timestamps the result
    depends on the order of the input, as the example above shows. *)
Theorem sort_invariance_for_distinct_timestamps
    (obs shuffled : list Obs) (window : Z) :
  NoDup (timestamp <$> obs) → shuffled ≡ₚ obs →
  call_calculate_moving_statistics (raw shuffled) window
  = call_calculate_moving_statistics (raw (sort_by timestamp obs)) window.
Proof.
  intros Hnd Hp.
  assert (frame_sort_index (raw shuffled)
          = frame_sort_index (raw (sort_by timestamp obs))) as Hs.
  { rewrite !frame_sort_index_raw, sort_by_idemp. f_equal.
    symmetry. by apply sort_by_perm_eq. }
  destruct (decide (1 ≤ window)%Z).
  - rewrite !call_calculate_moving_statistics_ok by done. by rewrite Hs.
  - by rewrite !call_calculate_moving_statistics_invalid by lia.
Qed.

Lemma sort_invariance_for_distinct_timestamps_witness :
  NoDup (timestamp <$> obs_example)
  ∧ reverse obs_example ≡ₚ obs_example
  ∧ call_calculate_moving_statistics (raw (reverse obs_example)) 3
    = call_calculate_moving_statistics
        (raw (sort_by timestamp obs_example)) 3.
Proof.
  assert (NoDup (timestamp <$> obs_example)) as Hnd
    by (by apply (bool_decide_unpack _)).
  assert (reverse obs_example ≡ₚ obs_example) as Hp
    by apply Permutation_swap.
  split; [done|]. split; [done|].
  by apply (sort_invariance_for_distinct_timestamps obs_example).
Defined.

(** ** Anomaly flags *)

Lemma bool_column_with_anomaly df u lo :
  bool_column (with_anomaly df u lo) "anomaly"
  = zip_with orb
      (zip_with fgt (temperature <$> rows df) (as_float u))
      (zip_with flt (temperature <$> rows df) (as_float lo)).
Proof.
  unfold bool_column, with_anomaly.
  by rewrite frame_getitem_setitem_eq by done.
Qed.

Lemma anomaly_lookup df u lo i o ub lb :
  rows df !! i = Some o →
  as_float u !! i = Some ub → as_float lo !! i = Some lb →
  bool_column (with_anomaly df u lo) "anomaly" !! i
  = Some (fgt (temperature o) ub || flt (temperature o) lb).
Proof.
  intros Ho Hu Hl. rewrite bool_column_with_anomaly, !lookup_zip_with.
  by rewrite list_lookup_fmap, Ho, Hu, Hl.
Qed.

Lemma fgt_nan a : fgt a NaN = false.
Proof. done. Qed.

Lemma flt_nan a : flt a NaN = false.
Proof. by destruct a. Qed.

Lemma frame_getitem_float_column df c col :
  frame_getitem df c = Ok col → float_column df c = as_float col.
Proof. intros Hc. unfold float_column. by rewrite Hc. Qed.

Lemma frame_getitem_with_stats df window :
  ∃ u lo,
    frame_getitem (with_stats df window) "upper_bound" = Ok u
    ∧ frame_getitem (with_stats df window) "lower_bound" = Ok lo.
Proof.
  unfold frame_getitem, with_stats, stats_cols. simpl.
  do 2 eexists. split; by simplify_map_eq.
Qed.

(** In a baseline the two bounds of a row are NaN together. *)
Lemma baseline_bounds_nan df window i ub lb :
  float_column (with_stats df window) "upper_bound" !! i = Some ub →
  float_column (with_stats df window) "lower_bound" !! i = Some lb →
  is_nan ub = is_nan lb.
Proof.
  destruct (float_column_with_stats df window) as (_ & _ & Hu & Hl).
  rewrite Hu, Hl, !lookup_zip_with, !list_lookup_fmap.
  destruct (Rolling_mean _ !! i) as [m|]; [|done].
  destruct (Rolling_std _ !! i) as [s|]; [|done]. simpl.
  intros [= <-] [= <-]. by destruct m, s.
Qed.

(** Outside the pipeline the two comparisons are independent: in a frame
    put together by hand, with temperature 0, upper bound NaN and lower
    bound 5, the row is flagged, because 0 < 5.  No frame returned by
    [calculate_moving_statistics] has such a row. *)
Lemma nan_bound_can_be_flagged :
  float_column one_sided "upper_bound" !! 0 = Some NaN
  ∧ ∃ out, call_detect_anomalies one_sided = Ok out
           ∧ bool_column out "anomaly" !! 0 = Some true.
Proof.
  split; [done|]. eexists. split.
  - by apply (call_detect_anomalies_ok _ (FloatCol [NaN]) (FloatCol [Fin 5])).
  - erewrite anomaly_lookup; [|done..]. f_equal. simpl.
    apply bool_decide_eq_true. lra.
Qed.

(** C6 -- anomaly classification.  For every frame that has the
    two bound columns the call returns a frame with the same observations
    in which the flag of each row is [temperature > upper_bound or
    temperature < lower_bound], a comparison with NaN being false.  Hence a
    row whose two bounds are both NaN is not flagged; a row with one NaN
    bound is flagged exactly when the comparison with the other bound
    holds.  In every frame returned by [calculate_moving_statistics] the two
    bounds of a row are NaN together, so there no row with a NaN bound is
    flagged. *)
Theorem anomaly_flag_is_band_test
    (df : frame) (u lo : column) (i : nat) (o : Obs) (ub lb : float64) :
  frame_getitem df "upper_bound" = Ok u →
  frame_getitem df "lower_bound" = Ok lo →
  rows df !! i = Some o →
  as_float u !! i = Some ub → as_float lo !! i = Some lb →
  ∃ out,
    call_detect_anomalies df = Ok out
    ∧ rows out = rows df
    ∧ bool_column out "anomaly" !! i
      = Some (fgt (temperature o) ub || flt (temperature o) lb)
    ∧ (ub = NaN → lb = NaN → bool_column out "anomaly" !! i = Some false)
    ∧ (ub = NaN →
       bool_column out "anomaly" !! i = Some (flt (temperature o) lb))
    ∧ (lb = NaN →
       bool_column out "anomaly" !! i = Some (fgt (temperature o) ub))
    ∧ (∀ df0 window, call_calculate_moving_statistics df0 window = Ok df →
         is_nan ub = is_nan lb
         ∧ (ub = NaN ∨ lb = NaN →
            bool_column out "anomaly" !! i = Some false)).
Proof.
  intros Hu Hl Ho Hub Hlb. eexists.
  split; [by apply call_detect_anomalies_ok|]. split; [done|].
  rewrite (anomaly_lookup _ _ _ _ _ _ _ Ho Hub Hlb).
  split_and!; [done| | | |].
  - intros -> ->. by rewrite fgt_nan, flt_nan.
  - intros ->. by rewrite fgt_nan.
  - intros ->. by rewrite flt_nan, orb_false_r.
  - intros df0 window Hcall.
    assert (is_nan ub = is_nan lb) as Hnan.
    { destruct (decide (1 ≤ window)%Z).
      - rewrite call_calculate_moving_statistics_ok in Hcall by done.
        injection Hcall as <-.
        apply (baseline_bounds_nan (frame_sort_index df0) window i);
          by erewrite frame_getitem_float_column.
      - by rewrite call_calculate_moving_statistics_invalid in Hcall by lia. }
    split; [done|].
    destruct ub, lb; try done.
    + intros _. by rewrite fgt_nan, flt_nan.
    + by intros [?|?].
Qed.

Lemma anomaly_flag_is_band_test_witness :
  frame_getitem one_sided "upper_bound" = Ok (FloatCol [NaN])
  ∧ frame_getitem one_sided "lower_bound" = Ok (FloatCol [Fin 5])
  ∧ rows one_sided !! 0 = Some (mkObs 1 "Berlin" (Fin 0) (Some "winter"))
  ∧ as_float (FloatCol [NaN]) !! 0 = Some NaN
  ∧ as_float (FloatCol [Fin 5]) !! 0 = Some (Fin 5)
  ∧ ∃ out,
    call_detect_anomalies one_sided = Ok out
    ∧ rows out = rows one_sided
    ∧ bool_column out "anomaly" !! 0
      = Some (fgt (Fin 0) NaN || flt (Fin 0) (Fin 5)).
Proof.
  do 5 (split; [reflexivity|]).
  destruct (anomaly_flag_is_band_test one_sided
              (FloatCol [NaN]) (FloatCol [Fin 5]) 0
              (mkObs 1 "Berlin" (Fin 0) (Some "winter")) NaN (Fin 5))
    as (out & Hout & Hrows & Hflag & _); [reflexivity..|].
  exists out. by split_and!.
Defined.

(** ** Constant series *)

Lemma notna_replicate k c : notna (replicate k (Fin c)) = replicate k c.
Proof. induction k as [|k IH]; [done|]. unfold notna in *. csimpl. by f_equal. Qed.

Lemma Rsum_replicate k c : Rsum (replicate k c) = (INR k * c)%R.
Proof.
  induction k as [|k IH].
  - simpl. lra.
  - rewrite S_INR. cbn [replicate Rsum foldr]. fold (Rsum (replicate k c)).
    rewrite IH. lra.
Qed.

Lemma mean_of_replicate k c : 0 < k → mean_of (replicate k c) = c.
Proof.
  intros Hk. unfold mean_of. rewrite Rsum_replicate, length_replicate.
  field. apply not_0_INR. lia.
Qed.

Lemma ssqdm_replicate k c : 0 < k → ssqdm (replicate k c) = 0%R.
Proof.
  intros Hk. unfold ssqdm. rewrite mean_of_replicate, fmap_replicate by done.
  rewrite Rsum_replicate. lra.
Qed.

Lemma series_mean_const k c :
  0 < k → series_mean (replicate k (Fin c)) = Fin c.
Proof.
  intros Hk. unfold series_mean.
  rewrite notna_replicate, length_replicate, decide_True by done.
  by rewrite mean_of_replicate.
Qed.

Lemma series_std_const k c :
  2 ≤ k → series_std 1 (replicate k (Fin c)) = Fin 0.
Proof.
  intros Hk. unfold series_std.
  rewrite notna_replicate, length_replicate, decide_True by lia.
  rewrite ssqdm_replicate by lia. f_equal.
  unfold Rdiv. rewrite Rmult_0_l. apply sqrt_0.
Qed.

Lemma series_std_single v : series_std 1 [v] = NaN.
Proof. unfold series_std. by destruct v. Qed.

Lemma centered_window_elem {A} window i (xs : list A) x :
  x ∈ centered_window window i xs → x ∈ xs.
Proof.
  unfold centered_window. rewrite list_elem_of_omap.
  intros (j & _ & Hj). case_decide; [|done].
  by eapply list_elem_of_lookup_2.
Qed.

Lemma centered_window_const {A} window i (xs : list A) v :
  Forall (λ x, x = v) xs →
  centered_window window i xs
  = replicate (length (centered_window window i xs)) v.
Proof.
  intros Hxs. symmetry. apply replicate_as_Forall. split; [done|].
  apply Forall_forall. intros x Hx%centered_window_elem.
  rewrite Forall_forall in Hxs. symmetry. by apply Hxs.
Qed.

(** The number of positions in the window of [i]. *)
Lemma centered_window_length {A} window i (xs : list A) :
  (1 ≤ window)%Z → i < length xs →
  Z.of_nat (length (centered_window window i xs))
  = (Z.min (Z.of_nat (length xs) - 1)
           (Z.of_nat i + - ((- window) `div` 2) - 1)
     - Z.max 0 (Z.of_nat i - window `div` 2) + 1)%Z.
Proof.
  intros Hw Hi. rewrite <-slice_centered by done.
  unfold window_bounds, slice, clip. simpl.
  rewrite length_take, length_drop.
  Z.div_mod_to_equations. lia.
Qed.

Lemma baseline_bounds_lookup df window i m s :
  float_column (with_stats df window) "rolling_mean" !! i = Some m →
  float_column (with_stats df window) "rolling_std" !! i = Some s →
  float_column (with_stats df window) "upper_bound" !! i
  = Some (fadd m (fmul (Fin 2) s))
  ∧ float_column (with_stats df window) "lower_bound" !! i
    = Some (fsub m (fmul (Fin 2) s)).
Proof.
  destruct (float_column_with_stats df window) as (Hm & Hs & Hu & Hl).
  rewrite Hm, Hs, Hu, Hl. intros Him His.
  by rewrite !lookup_zip_with, !list_lookup_fmap, Him, His.
Qed.

Lemma flt_irrefl a : flt a a = false.
Proof. destruct a; [done|]. apply bool_decide_eq_false. lra. Qed.

(** C2, as stated, fails: three observations of temperature 10 and a window
    of 1.  Every window holds a single observation, so at every position,
    the middle one included, the rolling standard deviation is NaN and the
    upper and the lower bound are NaN, not 10. *)
Lemma constant_series_bounds_can_be_nan :
  Forall (λ o, temperature o = Fin 10) constant_three
  ∧ ∃ out,
      call_calculate_moving_statistics (raw constant_three) 1 = Ok out
      ∧ float_column out "rolling_std" !! 1 = Some NaN
      ∧ float_column out "upper_bound" !! 1 ≠ Some (Fin 10)
      ∧ float_column out "lower_bound" !! 1 ≠ Some (Fin 10).
Proof.
  split; [by repeat constructor|]. eexists.
  split; [by apply call_calculate_moving_statistics_ok|].
  destruct (baseline_lookup (raw constant_three) 1 1) as [Hm Hs];
    [lia|simpl; lia|].
  destruct (baseline_bounds_lookup _ _ _ _ _ Hm Hs) as [Hu Hl].
  rewrite Hs, Hu, Hl. by split_and!.
Qed.

(** C2, amended -- constant series.  For every frame whose temperatures all
    equal [c], every window size of at least 1 and every position [i]: the
    rolling mean is [c]; where the window of [i] holds at least two
    observations (the series has at least two, the window size is at least
    2, and [i] is not 0 or the window size is at least 3) the rolling
    standard deviation is 0 and both bounds are [c]; where it holds a
    single observation the rolling standard deviation and both bounds are
    NaN; in both cases the observation is not flagged as an anomaly. *)
Theorem constant_series_baseline
    (df : frame) (c : R) (window : Z) (i : nat) :
  (1 ≤ window)%Z →
  Forall (λ o, temperature o = Fin c) (rows df) →
  i < length (rows df) →
  ∃ out flagged,
    call_calculate_moving_statistics df window = Ok out
    ∧ call_detect_anomalies out = Ok flagged
    ∧ float_column out "rolling_mean" !! i = Some (Fin c)
    ∧ bool_column flagged "anomaly" !! i = Some false
    ∧ let k := length (centered_window window i (temperature <$> rows out)) in
      1 ≤ k
      ∧ (2 ≤ k ↔
         2 ≤ length (rows df) ∧ (2 ≤ window)%Z ∧ (0 < i ∨ (3 ≤ window)%Z))
      ∧ (2 ≤ k →
         float_column out "rolling_std" !! i = Some (Fin 0)
         ∧ float_column out "upper_bound" !! i = Some (Fin c)
         ∧ float_column out "lower_bound" !! i = Some (Fin c))
      ∧ (k = 1 →
         float_column out "rolling_std" !! i = Some NaN
         ∧ float_column out "upper_bound" !! i = Some NaN
         ∧ float_column out "lower_bound" !! i = Some NaN).
Proof.
  intros Hw Hc Hi.
  set (sorted := frame_sort_index df).
  set (out := with_stats sorted window).
  destruct (frame_getitem_with_stats sorted window) as (u & lo & Hu & Hlo).
  exists out, (with_anomaly out u lo).
  split; [by apply call_calculate_moving_statistics_ok|].
  split; [by apply call_detect_anomalies_ok|].
  assert (rows out = sort_by timestamp (rows df)) as Hrows
    by apply baseline_rows.
  set (ts := temperature <$> sort_by timestamp (rows df)).
  assert (Forall (λ x, x = Fin c) ts) as Hts.
  { unfold ts. apply Forall_fmap. by rewrite sort_by_perm. }
  assert (i < length ts) as Hits
    by (by unfold ts; rewrite length_fmap, sort_by_length).
  pose proof (centered_window_length window i ts Hw Hits) as Hlen.
  pose proof (centered_window_const window i ts _ Hts) as Hwin.
  destruct (baseline_lookup df window i Hw Hi) as [Hm Hs].
  fold ts sorted out in Hm, Hs. rewrite Hrows. fold ts.
  set (k := length (centered_window window i ts)) in *.
  assert (length ts = length (rows df)) as Hn
    by (by unfold ts; rewrite length_fmap, sort_by_length).
  assert (1 ≤ k) as Hk1 by (Z.div_mod_to_equations; lia).
  rewrite Hwin in Hm, Hs. rewrite series_mean_const in Hm by done.
  destruct (lookup_lt_is_Some_2 (rows out) i) as [o Ho];
    [by rewrite Hrows, sort_by_length|].
  assert (temperature o = Fin c) as Hto.
  { rewrite Forall_forall in Hc. apply Hc.
    rewrite <-(sort_by_perm timestamp), <-Hrows.
    by eapply list_elem_of_lookup_2. }
  assert (as_float u = float_column out "upper_bound") as Hfu
    by (symmetry; by apply frame_getitem_float_column).
  assert (as_float lo = float_column out "lower_bound") as Hfl
    by (symmetry; by apply frame_getitem_float_column).
  destruct (baseline_bounds_lookup _ _ _ _ _ Hm Hs) as [Hub Hlb].
  fold out in Hub, Hlb.
  split; [done|].
  destruct (decide (2 ≤ k)) as [Hk2|Hk2].
  - rewrite series_std_const in Hs, Hub, Hlb by done.
    assert (fadd (Fin c) (fmul (Fin 2) (Fin 0)) = Fin c) as Hadd
      by (simpl; f_equal; lra).
    assert (fsub (Fin c) (fmul (Fin 2) (Fin 0)) = Fin c) as Hsub
      by (simpl; f_equal; lra).
    rewrite Hadd in Hub. rewrite Hsub in Hlb. split.
    + erewrite anomaly_lookup; [|done|by rewrite Hfu|by rewrite Hfl].
      rewrite Hto. unfold fgt. by rewrite flt_irrefl.
    + split_and!; [done| |done|lia].
      split; [intros _|done]. Z.div_mod_to_equations. lia.
  - assert (k = 1) as Hk by lia. rewrite Hk in Hs, Hub, Hlb.
    change (replicate 1 (Fin c)) with [Fin c] in Hs, Hub, Hlb.
    rewrite series_std_single in Hs, Hub, Hlb. simpl in Hub, Hlb. split.
    + erewrite anomaly_lookup; [|done|by rewrite Hfu|by rewrite Hfl].
      by rewrite fgt_nan, flt_nan.
    + split_and!; [done| |lia|done].
      split; [lia|intros ?]. Z.div_mod_to_equations. lia.
Qed.

Lemma constant_series_baseline_witness :
  (1 ≤ 3)%Z
  ∧ Forall (λ o, temperature o = Fin 10) (rows (raw constant_three))
  ∧ 1 < length (rows (raw constant_three))
  ∧ ∃ out flagged,
    call_calculate_moving_statistics (raw constant_three) 3 = Ok out
    ∧ call_detect_anomalies out = Ok flagged
    ∧ float_column out "rolling_mean" !! 1 = Some (Fin 10)
    ∧ bool_column flagged "anomaly" !! 1 = Some false.
Proof.
  assert (Forall (λ o, temperature o = Fin 10) (rows (raw constant_three)))
    as Hc by (simpl; by repeat constructor).
  split; [lia|]. split; [done|]. split; [simpl; lia|].
  destruct (constant_series_baseline (raw constant_three) 10 3 1)
    as (out & flagged & H1 & H2 & H3 & H4 & _); [lia|done|simpl; lia|].
  by exists out, flagged.
Defined.

(** ** Seasons: the statistics and the missing season *)

Lemma group_keys_perm city_data :
  group_keys city_data ≡ₚ remove_dups (omap season city_data).
Proof. apply merge_sort_Permutation. Qed.

Lemma elem_of_group_keys city_data s :
  s ∈ group_keys city_data ↔ ∃ o, o ∈ city_data ∧ season o = Some s.
Proof.
  by rewrite group_keys_perm, elem_of_remove_dups, list_elem_of_omap.
Qed.

Lemma NoDup_group_keys city_data : NoDup (group_keys city_data).
Proof. rewrite group_keys_perm. apply NoDup_remove_dups. Qed.

Lemma seasonal_stats_keys city_data :
  (seasonal_stats city_data).*1 = group_keys city_data.
Proof.
  unfold seasonal_stats. rewrite <-list_fmap_compose.
  by rewrite <-(list_fmap_id (group_keys city_data)) at 2.
Qed.

Lemma select_season_nonempty city_data s :
  0 < length (select_season city_data s)
  ↔ ∃ o, o ∈ city_data ∧ season o = Some s.
Proof.
  unfold select_season. split.
  - destruct (filter _ city_data) as [|o l] eqn:Hf; simpl; [lia|].
    intros _. exists o.
    assert (o ∈ filter (λ o, season o = Some s) city_data) as Ho
      by (rewrite Hf; left).
    apply list_elem_of_filter in Ho as [Hso Hin]. by split.
  - intros (o & Ho & Hs).
    assert (o ∈ filter (λ o, season o = Some s) city_data) as Hin
      by (by apply list_elem_of_filter).
    destruct (filter _ city_data); [by inv Hin|simpl; lia].
Qed.

Lemma evaluate_in_season_None city_data s reading :
  evaluate_in_season city_data s reading = None
  ↔ ¬ ∃ o, o ∈ city_data ∧ season o = Some s.
Proof.
  rewrite <-select_season_nonempty. unfold evaluate_in_season.
  case_decide; naive_solver.
Qed.

(** C8 -- no seasonal data.  For every reading and every season the
    evaluation is a total function whose only failure is the value [None]:
    it is returned exactly when the seasonal statistics have no entry for
    the season, that is, exactly when no observation carries that season;
    otherwise an evaluation is returned. *)
Theorem no_seasonal_data_iff_season_absent
    (city_data : list Obs) (s : string) (reading : float64) :
  (evaluate_in_season city_data s reading = None
   ↔ s ∉ (seasonal_stats city_data).*1)
  ∧ (evaluate_in_season city_data s reading = None
     ↔ ∀ o, o ∈ city_data → season o ≠ Some s)
  ∧ (is_Some (evaluate_in_season city_data s reading)
     ↔ s ∈ (seasonal_stats city_data).*1)
  ∧ (∀ month,
       evaluate_reading city_data month reading = None
       ↔ month_to_season month ∉ (seasonal_stats city_data).*1).
Proof.
  assert (∀ s', evaluate_in_season city_data s' reading = None
                ↔ s' ∉ (seasonal_stats city_data).*1) as Hnone.
  { intros s'.
    by rewrite evaluate_in_season_None, seasonal_stats_keys,
      elem_of_group_keys. }
  split_and!.
  - apply Hnone.
  - rewrite evaluate_in_season_None. split.
    + intros Hno o Ho Hso. apply Hno. by exists o.
    + intros Hall (o & Ho & Hso). by apply (Hall o).
  - rewrite <-not_eq_None_Some, Hnone.
    destruct (decide (s ∈ (seasonal_stats city_data).*1)) as [Hin|Hout].
    + split; [done|]. intros _ Hout. by apply Hout.
    + split; [|done]. intros Hnn. by destruct Hnn.
  - intros month. apply Hnone.
Qed.

(** ** Seasonal counts *)

Lemma series_count_counted (l : list Obs) :
  series_count (temperature <$> l) = length (filter counted l).
Proof.
  unfold series_count, notna.
  induction l as [|o l IH]; [done|]. csimpl.
  destruct (temperature o) eqn:Ht.
  - rewrite filter_cons_False; [done|]. unfold counted. by rewrite Ht.
  - rewrite filter_cons_True; [|by unfold counted; rewrite Ht].
    simpl. by rewrite IH.
Qed.

Lemma length_filter_disjoint {A} (P Q : A → Prop)
    `{∀ x, Decision (P x)} `{∀ x, Decision (Q x)} (l : list A) :
  (∀ x, P x → Q x → False) →
  length (filter (λ x, P x ∨ Q x) l)
  = length (filter P l) + length (filter Q l).
Proof.
  intros Hdis. induction l as [|x l IH]; [done|].
  rewrite !filter_cons.
  destruct (decide (P x)) as [HP|HP], (decide (Q x)) as [HQ|HQ];
    [by destruct (Hdis x)|..].
  - rewrite decide_True by auto. simpl. lia.
  - rewrite decide_True by auto. simpl. lia.
  - rewrite decide_False by tauto. done.
Qed.

Lemma filter_iff_elem {A} (P Q : A → Prop)
    `{∀ x, Decision (P x)} `{∀ x, Decision (Q x)} (l : list A) :
  (∀ x, x ∈ l → (P x ↔ Q x)) → filter P l = filter Q l.
Proof.
  induction l as [|x l IH]; intros HPQ; [done|].
  rewrite !filter_cons.
  pose proof (HPQ x (list_elem_of_here x l)) as Hx.
  rewrite IH by (intros y Hy; apply HPQ; by right).
  destruct (decide (P x)), (decide (Q x)); tauto || done.
Qed.

Lemma group_counts (city_data : list Obs) (ks : list string) :
  NoDup ks →
  sum_list
    ((λ s, series_count (temperature <$> select_season city_data s)) <$> ks)
  = length
      (filter (λ o, counted o ∧ season o ∈ (Some <$> ks)) city_data).
Proof.
  induction 1 as [|k ks Hk Hnd IH].
  - simpl. rewrite (filter_iff_elem _ (λ _, False)).
    + by induction city_data.
    + intros o _. rewrite elem_of_nil. tauto.
  - cbn [fmap list_fmap sum_list sum_list_with]. rewrite IH.
    rewrite series_count_counted. unfold select_season.
    rewrite list_filter_filter. unfold Datatypes.id.
    rewrite <-(length_filter_disjoint
                 (λ o, counted o ∧ season o = Some k)
                 (λ o, counted o ∧ season o ∈ (Some <$> ks))).
    + f_equal. apply list_filter_iff. intros o.
      rewrite elem_of_cons. split.
      * intros [[Hc Hk']|[Hc Hin]]; split; auto.
      * intros [Hc [Hk'|Hin]]; auto.
    + intros o [_ Ho] [_ Hin]. apply Hk.
      rewrite Ho in Hin. apply list_elem_of_fmap in Hin as (s & [= ->] & Hs).
      done.
Qed.

Lemma total_count_seasonal_stats city_data :
  total_count (seasonal_stats city_data)
  = length (filter (λ o, counted o ∧ is_Some (season o)) city_data).
Proof.
  unfold total_count, seasonal_stats. rewrite <-list_fmap_compose.
  etrans; [apply (group_counts city_data), NoDup_group_keys|].
  f_equal. apply filter_iff_elem. intros o Ho.
  rewrite list_elem_of_fmap. split.
  - intros [Hc (s & -> & _)]. by split.
  - intros [Hc [s Hs]]. split; [done|]. exists s. split; [done|].
    apply elem_of_group_keys. by exists o.
Qed.

(** C9, as stated, fails, in two ways.  One observation labelled "monsoon":
    the grouping makes an entry for that label, so the counts add up to 1
    while no observation carries one of the four names.  One observation
    labelled "winter" whose temperature is NaN: the count of "winter" is 0
    while one observation carries one of the four names. *)
Lemma total_count_is_not_enum_count :
  (total_count (seasonal_stats monsoon_obs) = 1
   ∧ length (filter (λ o, season o ∈ (Some <$> season_names)) monsoon_obs) = 0)
  ∧ (total_count (seasonal_stats nan_obs) = 0
     ∧ length (filter (λ o, season o ∈ (Some <$> season_names)) nan_obs) = 1).
Proof. by rewrite !total_count_seasonal_stats. Qed.

(** C9, amended -- seasonal total count.  For every series the counts of
    the returned entries add up to the number of observations that carry a
    season label, whichever it is, and a temperature that is not NaN; the
    count of an entry is the number of such observations with its label.
    The entries are exactly the labels that occur in the input, each once:
    a season that no observation carries has no entry.  When every
    temperature is a number and every label that occurs is one of the four
    names, the counts add up to the number of observations labelled with
    one of the four names. *)
Theorem seasonal_counts_add_up (city_data : list Obs) :
  total_count (seasonal_stats city_data)
  = length (filter (λ o, counted o ∧ is_Some (season o)) city_data)
  ∧ (∀ s st, (s, st) ∈ seasonal_stats city_data →
       temperature_count st
       = length (filter (λ o, counted o ∧ season o = Some s) city_data))
  ∧ (∀ s, s ∈ (seasonal_stats city_data).*1
          ↔ ∃ o, o ∈ city_data ∧ season o = Some s)
  ∧ NoDup (seasonal_stats city_data).*1
  ∧ ((∀ o, o ∈ city_data → counted o) →
     (∀ o s, o ∈ city_data → season o = Some s → s ∈ season_names) →
     total_count (seasonal_stats city_data)
     = length (filter (λ o, season o ∈ (Some <$> season_names)) city_data)).
Proof.
  split_and!.
  - apply total_count_seasonal_stats.
  - intros s st Hin. unfold seasonal_stats in Hin.
    apply list_elem_of_fmap in Hin as (s' & [= -> ->] & _). simpl.
    rewrite series_count_counted. unfold select_season.
    by rewrite list_filter_filter.
  - intros s. by rewrite seasonal_stats_keys, elem_of_group_keys.
  - rewrite seasonal_stats_keys. apply NoDup_group_keys.
  - intros Hc Hs. rewrite total_count_seasonal_stats. f_equal.
    apply filter_iff_elem. intros o Ho. split.
    + intros [_ [s Hos]]. rewrite Hos. apply list_elem_of_fmap_2. by eapply Hs.
    + intros Hin. split; [by apply Hc|].
      apply list_elem_of_fmap in Hin as (s & -> & _). done.
Qed.

(** ** The band of the current reading *)

Lemma fle_Fin x y : fle (Fin x) (Fin y) = true ↔ (x <= y)%R.
Proof. simpl. apply bool_decide_eq_true. Qed.

(** Three winter temperatures with mean 15 and standard deviation 5. *)
Lemma winter_obs_statistics :
  series_mean (temperature <$> select_season winter_obs "winter") = Fin 15
  ∧ series_std 1 (temperature <$> select_season winter_obs "winter") = Fin 5.
Proof.
  split.
  - unfold series_mean, mean_of. simpl. f_equal. lra.
  - unfold series_std, ssqdm, mean_of. simpl. f_equal.
    rewrite <-(sqrt_square 5) by lra. f_equal. lra.
Qed.

(** C7 -- the band of the current reading.  For every reading and every
    season that has an entry in the seasonal statistics, the evaluation is
    made from the mean and the sample standard deviation of the season's
    temperatures, with [lower = mean - 2 * std], [upper = mean + 2 * std]
    and [is_normal = (lower <= reading <= upper)]; both ends are included:
    with numbers for the three values, [is_normal] holds exactly when
    [lower <= reading] and [reading <= upper].  With mean 15 and standard
    deviation 5 the bounds are 5 and 25, the readings 24.9, 25 and 5 are
    normal and the reading 25.1 is not. *)
Theorem reading_within_two_sigma
    (city_data : list Obs) (s : string) (reading : float64) :
  s ∈ (seasonal_stats city_data).*1 →
  ∃ ev,
    evaluate_in_season city_data s reading = Some ev
    ∧ mean_temp ev = series_mean (temperature <$> select_season city_data s)
    ∧ std_temp ev = series_std 1 (temperature <$> select_season city_data s)
    ∧ lower_bound ev = fsub (mean_temp ev) (fmul (Fin 2) (std_temp ev))
    ∧ upper_bound ev = fadd (mean_temp ev) (fmul (Fin 2) (std_temp ev))
    ∧ is_normal ev = fle (lower_bound ev) reading && fle reading (upper_bound ev)
    ∧ (∀ lo x up,
         lower_bound ev = Fin lo → reading = Fin x → upper_bound ev = Fin up →
         is_normal ev = true ↔ (lo <= x)%R ∧ (x <= up)%R)
    ∧ (mean_temp ev = Fin 15 → std_temp ev = Fin 5 →
       lower_bound ev = Fin 5 ∧ upper_bound ev = Fin 25
       ∧ (reading = Fin 24.9 → is_normal ev = true)
       ∧ (reading = Fin 25.1 → is_normal ev = false)
       ∧ (reading = Fin 25 → is_normal ev = true)
       ∧ (reading = Fin 5 → is_normal ev = true)).
Proof.
  rewrite seasonal_stats_keys, elem_of_group_keys, <-select_season_nonempty.
  intros Hs. unfold evaluate_in_season. rewrite decide_True by done.
  eexists. split; [done|]. simpl.
  set (m := series_mean _). set (sd := series_std 1 _).
  split_and!; try done.
  - intros lo x up Hlo -> Hup. rewrite Hlo, Hup, andb_true_iff.
    by rewrite !fle_Fin.
  - intros -> ->.
    assert (fsub (Fin 15) (Fin (2 * 5)) = Fin 5) as ->
      by (simpl; f_equal; lra).
    assert (fadd (Fin 15) (Fin (2 * 5)) = Fin 25) as ->
      by (simpl; f_equal; lra).
    split_and!; try done; intros ->; simpl.
    + rewrite andb_true_iff, !bool_decide_eq_true. lra.
    + rewrite andb_false_iff, !bool_decide_eq_false. lra.
    + rewrite andb_true_iff, !bool_decide_eq_true. lra.
    + rewrite andb_true_iff, !bool_decide_eq_true. lra.
Qed.

Lemma reading_within_two_sigma_witness :
  "winter" ∈ (seasonal_stats winter_obs).*1
  ∧ ∃ ev,
      evaluate_in_season winter_obs "winter" (Fin 24.9) = Some ev
      ∧ mean_temp ev = Fin 15 ∧ std_temp ev = Fin 5
      ∧ is_normal ev = true.
Proof.
  assert ("winter" ∈ (seasonal_stats winter_obs).*1) as Hs
    by (rewrite seasonal_stats_keys; by apply (bool_decide_unpack _)).
  split; [done|].
  destruct (reading_within_two_sigma winter_obs "winter" (Fin 24.9) Hs)
    as (ev & Hev & Hm & Hsd & _ & _ & _ & _ & Hex).
  destruct winter_obs_statistics as [Hmean Hstd].
  rewrite Hmean in Hm. rewrite Hstd in Hsd.
  exists ev. split_and!; [done..|].
  destruct (Hex Hm Hsd) as (_ & _ & Hnormal & _). by apply Hnormal.
Defined.

(** ** The caller's frame *)

Lemma with_stats_cols_other df window c :
  c ∉ stats_names → cols (with_stats df window) !! c = cols df !! c.
Proof.
  unfold stats_names. rewrite !not_elem_of_cons. intros (? & ? & ? & ? & _).
  unfold with_stats, stats_cols. simpl.
  by rewrite !lookup_insert_ne by done.
Qed.

Lemma with_stats_cols_new df window c :
  c ∈ stats_names → is_Some (cols (with_stats df window) !! c).
Proof.
  unfold stats_names. rewrite !elem_of_cons, elem_of_nil.
  unfold with_stats, stats_cols. simpl.
  intros [->|[->|[->|[->|[]]]]]; by simplify_map_eq.
Qed.

Lemma heap_grows_lookup (h k : heap) l df :
  h !! l = Some df → (h ++ k) !! l = Some df.
Proof. apply lookup_app_l_Some. Qed.

Lemma heap_lookup_second (h : heap) df1 df2 :
  (h ++ [df1; df2]) !! S (length h) = Some df2.
Proof.
  replace (h ++ [df1; df2]) with ((h ++ [df1]) ++ [df2])
    by (by rewrite <-app_assoc).
  replace (S (length h)) with (length (h ++ [df1]))
    by (rewrite length_app; simpl; lia).
  apply heap_lookup_new.
Qed.

(** C10 -- the caller's frame is left alone.  For every heap and every
    reference [l] to a frame [df]: whatever [calculate_moving_statistics]
    and [detect_anomalies] return or raise, afterwards [l] still refers to
    [df] and every other frame of the heap is as it was.  When they
    return, the result is a new frame.  That of
    [calculate_moving_statistics], for a window from 1 up to the 64-bit
    limit, holds the observations of [df], each with its timestamp, city,
    temperature and season and as often as in [df], in ascending timestamp
    order, columns of the names that [df] had, and the four new columns;
    that of [detect_anomalies] holds the observations of [df] in the same
    order, the columns of [df] and the new column [anomaly]. *)
Theorem callers_frame_unchanged
    (h : heap) (l : loc) (df : frame) (window : Z) :
  h !! l = Some df →
  (∀ r h', calculate_moving_statistics l window h = (r, h') →
     h' !! l = Some df ∧ ∀ l0 df0, h !! l0 = Some df0 → h' !! l0 = Some df0)
  ∧ (∀ r h', detect_anomalies l h = (r, h') →
     h' !! l = Some df ∧ ∀ l0 df0, h !! l0 = Some df0 → h' !! l0 = Some df0)
  ∧ ((1 ≤ window)%Z → (window < 2 ^ 63)%Z →
     ∃ l' h' out,
       calculate_moving_statistics l window h = (Ok l', h')
       ∧ h !! l' = None ∧ h' !! l' = Some out
       ∧ Sorted (key_le timestamp) (rows out)
       ∧ rows out ≡ₚ rows df
       ∧ (∀ c, c ∉ stats_names →
            is_Some (cols out !! c) ↔ is_Some (cols df !! c))
       ∧ (∀ c, c ∈ stats_names → is_Some (cols out !! c)))
  ∧ (∀ u lo,
       frame_getitem df "upper_bound" = Ok u →
       frame_getitem df "lower_bound" = Ok lo →
       ∃ l' h' out,
         detect_anomalies l h = (Ok l', h')
         ∧ h !! l' = None ∧ h' !! l' = Some out
         ∧ rows out = rows df
         ∧ (∀ c, c ≠ "anomaly" → cols out !! c = cols df !! c)
         ∧ is_Some (cols out !! "anomaly")).
Proof.
  intros Hl. split_and!.
  - intros r h' Hrun.
    destruct (calculate_moving_statistics_grows h l window) as [k Hk].
    rewrite Hrun in Hk. simpl in Hk. subst h'.
    split; [by apply heap_grows_lookup|].
    intros l0 df0. apply heap_grows_lookup.
  - intros r h' Hrun.
    destruct (detect_anomalies_grows h l) as [k Hk].
    rewrite Hrun in Hk. simpl in Hk. subst h'.
    split; [by apply heap_grows_lookup|].
    intros l0 df0. apply heap_grows_lookup.
  - intros Hw _. do 3 eexists.
    split; [by apply calculate_moving_statistics_run|].
    split; [apply lookup_ge_None_2; lia|].
    split.
    { apply heap_lookup_second. }
    split; [rewrite baseline_rows; apply sort_by_sorted|].
    split; [rewrite baseline_rows; apply sort_by_perm|].
    split; [|apply with_stats_cols_new].
    intros c Hc. rewrite with_stats_cols_other by done.
    unfold frame_sort_index. simpl.
    rewrite lookup_fmap. apply fmap_is_Some.
  - intros u lo Hu Hlo. do 3 eexists.
    split; [by apply detect_anomalies_run|].
    split; [apply lookup_ge_None_2; lia|].
    split; [apply heap_lookup_new|].
    split; [done|]. unfold with_anomaly, frame_setitem. simpl. split.
    + intros c Hc. by rewrite lookup_insert_ne.
    + by rewrite lookup_insert_eq.
Qed.

Lemma callers_frame_unchanged_witness :
  [raw obs_example] !! 0 = Some (raw obs_example)
  ∧ ∀ r h',
      calculate_moving_statistics 0 3 [raw obs_example] = (r, h') →
      h' !! 0 = Some (raw obs_example).
Proof.
  split; [reflexivity|]. intros r h' Hrun.
  destruct (callers_frame_unchanged [raw obs_example] 0 (raw obs_example) 3)
    as (Hcms & _); [reflexivity|].
  by destruct (Hcms r h' Hrun).
Defined.

(** * Further properties of the program *)

(** ** The rest of the model on small inputs *)

Example mask_select_example :
  mask_select [true; false; true] [10; 11; 12] = [10; 12]
  ∧ mask_select (mask_not [true; false; true]) [10; 11; 12] = [11]
  ∧ bool_sum [true; false; true] = 2.
Proof. by split_and!. Qed.

Example city_list_example :
  city_list
    [ mkObs 1 "Paris" NaN None; mkObs 2 "Berlin" NaN None;
      mkObs 3 "Paris" NaN None ]
  = ["Berlin"; "Paris"].
Proof. reflexivity. Qed.

Example utf8_first_example :
  utf8_first "ясно" = "я" ∧ utf8_first "abc" = "a" ∧ utf8_first "" = "".
Proof. by split_and!. Qed.

Example weather_of_json_example :
  weather_of_json berlin_body
  = Some (mkWeatherData (JNum (Fin 3)) (JStr "ясно") (JStr "Berlin")
            (JStr "DE"))
  ∧ weather_of_json (JObj ∅) = None
  ∧ weather_of_json (JArr []) = None.
Proof. by split_and!. Qed.

Example get_current_weather_sync_example :
  (get_current_weather_sync berlin_service "Berlin" "key").1
  = (Some (mkWeatherData (JNum (Fin 3)) (JStr "ясно") (JStr "Berlin")
             (JStr "DE")), None)
  ∧ (get_current_weather_sync not_found_service "Berlin" "key").1
    = (None, Some "Ошибка: 404")
  ∧ get_current_weather_sync berlin_service "Berlin" ""
    = ((None, Some "API ключ не указан"), []).
Proof. by split_and!. Qed.

(** ** Order of the result *)

(** X1 -- The rows of the result are in ascending timestamp order, whatever the
    order of the input; an input that is already in ascending order keeps
    its row order, equal timestamps included. *)
Theorem baseline_rows_ascending (df : frame) (window : Z) :
  (1 ≤ window)%Z →
  ∃ out,
    call_calculate_moving_statistics df window = Ok out
    ∧ Sorted (key_le timestamp) (rows out)
    ∧ (∀ i j a b, i ≤ j → rows out !! i = Some a → rows out !! j = Some b →
         (timestamp a ≤ timestamp b)%Z)
    ∧ (Sorted (key_le timestamp) (rows df) → rows out = rows df).
Proof.
  intros Hw. eexists.
  split; [by apply call_calculate_moving_statistics_ok|].
  rewrite baseline_rows.
  pose proof (sort_by_sorted timestamp (rows df)) as Hs.
  split; [done|]. split; [|apply sort_by_id].
  apply Sorted_StronglySorted in Hs; [|apply key_le_trans].
  revert Hs. generalize (sort_by timestamp (rows df)). intros l Hl.
  induction Hl as [|x l Hl IH Hx]; intros i j a b Hij Ha Hb; [done|].
  destruct i as [|i], j as [|j]; simpl in *; simplify_eq; try lia.
  - rewrite Forall_forall in Hx. apply (Hx b).
    by eapply list_elem_of_lookup_2.
  - eapply (IH i j); [lia|done..].
Qed.

Lemma baseline_rows_ascending_witness :
  (1 ≤ 3)%Z ∧
  ∃ out,
    call_calculate_moving_statistics (raw obs_example) 3 = Ok out
    ∧ Sorted (key_le timestamp) (rows out).
Proof.
  split; [lia|].
  destruct (baseline_rows_ascending (raw obs_example) 3) as (out & Ho & Hs & _);
    [lia|].
  by exists out.
Defined.

(** ** Errors of the two functions *)

(** X2 -- A window below 1 is an error: for every frame, the empty one
    included, [calculate_moving_statistics] raises [ValueError] then, so a
    call that returns a frame had a window of at least 1; and every window
    from 1 up to the 64-bit limit returns a frame. *)
Theorem baseline_rejects_window_below_one (df : frame) (window : Z) :
  ((window < 1)%Z →
   call_calculate_moving_statistics df window = Raise ValueError)
  ∧ (∀ out, call_calculate_moving_statistics df window = Ok out →
       (1 ≤ window)%Z)
  ∧ ((1 ≤ window)%Z → (window < 2 ^ 63)%Z →
     ∃ out, call_calculate_moving_statistics df window = Ok out).
Proof.
  destruct (decide (1 ≤ window)%Z) as [Hw|Hw].
  - rewrite call_calculate_moving_statistics_ok by done.
    split; [lia|]. split; [done|]. by eexists.
  - rewrite call_calculate_moving_statistics_invalid by lia.
    split; [done|]. split; [done|lia].
Qed.

Lemma call_detect_anomalies_raise_upper df e :
  frame_getitem df "upper_bound" = Raise e →
  call_detect_anomalies df = Raise e.
Proof.
  intros Hu. unfold call_detect_anomalies, detect_anomalies.
  rewrite (bind_ok _ _ _ _ _ (copy_run [df] 0 df eq_refl)).
  erewrite bind_ok;
    [|erewrite getitem_run by apply (heap_lookup_new [df]);
      rewrite frame_getitem_temperature; reflexivity].
  erewrite bind_raise;
    [|erewrite getitem_run by apply (heap_lookup_new [df]);
      rewrite Hu; reflexivity].
  done.
Qed.

Lemma call_detect_anomalies_raise_lower df u e :
  frame_getitem df "upper_bound" = Ok u →
  frame_getitem df "lower_bound" = Raise e →
  call_detect_anomalies df = Raise e.
Proof.
  intros Hu Hlo. unfold call_detect_anomalies, detect_anomalies.
  rewrite (bind_ok _ _ _ _ _ (copy_run [df] 0 df eq_refl)).
  do 3 (erewrite bind_ok;
    [|erewrite getitem_run by apply (heap_lookup_new [df]);
      rewrite ?Hu, ?frame_getitem_temperature; reflexivity]).
  erewrite bind_raise;
    [|erewrite getitem_run by apply (heap_lookup_new [df]);
      rewrite Hlo; reflexivity].
  done.
Qed.

Lemma frame_getitem_added df c :
  c ≠ "temperature" →
  frame_getitem df c
  = match cols df !! c with Some col => Ok col | None => Raise (KeyError c) end.
Proof. intros Hc. unfold frame_getitem. by rewrite decide_False. Qed.

(** X3 -- [detect_anomalies] needs both bound columns: without "upper_bound" it
    raises [KeyError "upper_bound"], with it but without "lower_bound" it
    raises [KeyError "lower_bound"], and with both it returns a frame.  In
    particular it fails on a frame that has not gone through
    [calculate_moving_statistics]. *)
Theorem detect_anomalies_needs_bounds (df : frame) :
  (cols df !! "upper_bound" = None →
   call_detect_anomalies df = Raise (KeyError "upper_bound"))
  ∧ (is_Some (cols df !! "upper_bound") → cols df !! "lower_bound" = None →
     call_detect_anomalies df = Raise (KeyError "lower_bound"))
  ∧ (is_Some (cols df !! "upper_bound") ∧ is_Some (cols df !! "lower_bound")
     ↔ ∃ out, call_detect_anomalies df = Ok out)
  ∧ (∀ obs, call_detect_anomalies (raw obs) = Raise (KeyError "upper_bound")).
Proof.
  assert (∀ d, cols d !! "upper_bound" = None →
               call_detect_anomalies d = Raise (KeyError "upper_bound")) as H1.
  { intros d Hu. apply call_detect_anomalies_raise_upper.
    by rewrite frame_getitem_added, Hu by done. }
  assert (is_Some (cols df !! "upper_bound") →
          cols df !! "lower_bound" = None →
          call_detect_anomalies df = Raise (KeyError "lower_bound")) as H2.
  { intros [u Hu] Hlo. apply (call_detect_anomalies_raise_lower df u).
    - by rewrite frame_getitem_added, Hu by done.
    - by rewrite frame_getitem_added, Hlo by done. }
  split_and!; [apply H1|apply H2| |].
  - split.
    + intros [[u Hu] [lo Hlo]]. eexists.
      apply (call_detect_anomalies_ok df u lo).
      * by rewrite frame_getitem_added, Hu by done.
      * by rewrite frame_getitem_added, Hlo by done.
    + intros [out Hout].
      destruct (cols df !! "upper_bound") as [u|] eqn:Hu;
        [|by rewrite H1 in Hout].
      destruct (cols df !! "lower_bound") as [lo|] eqn:Hlo;
        [by split|].
      rewrite H2 in Hout; [done|by eexists|done].
  - intros obs. by apply H1.
Qed.

(** ** Composition *)

(** X4 -- Flagging twice is flagging once: [detect_anomalies] on a frame it has
    returned returns that frame again. *)
Theorem detect_anomalies_idempotent (df out : frame) :
  call_detect_anomalies df = Ok out → call_detect_anomalies out = Ok out.
Proof.
  intros Hout.
  destruct (frame_getitem df "upper_bound") as [u|e] eqn:Hu;
    [|by rewrite (call_detect_anomalies_raise_upper df e) in Hout].
  destruct (frame_getitem df "lower_bound") as [lo|e] eqn:Hlo;
    [|by rewrite (call_detect_anomalies_raise_lower df u e) in Hout].
  rewrite (call_detect_anomalies_ok df u lo) in Hout by done.
  injection Hout as <-.
  rewrite (call_detect_anomalies_ok _ u lo).
  - f_equal. unfold with_anomaly, frame_setitem. simpl.
    by rewrite insert_insert_eq.
  - unfold with_anomaly. by rewrite frame_getitem_setitem_ne.
  - unfold with_anomaly. by rewrite frame_getitem_setitem_ne.
Qed.

Lemma detect_anomalies_idempotent_witness :
  call_detect_anomalies one_sided
  = Ok (with_anomaly one_sided (FloatCol [NaN]) (FloatCol [Fin 5]))
  ∧ call_detect_anomalies
      (with_anomaly one_sided (FloatCol [NaN]) (FloatCol [Fin 5]))
    = Ok (with_anomaly one_sided (FloatCol [NaN]) (FloatCol [Fin 5])).
Proof.
  assert (call_detect_anomalies one_sided
          = Ok (with_anomaly one_sided (FloatCol [NaN]) (FloatCol [Fin 5])))
    as Hcall by (by apply call_detect_anomalies_ok).
  split; [done|].
  by apply (detect_anomalies_idempotent one_sided).
Defined.

(** ** The flags of the pipeline *)

Lemma baseline_stats_lookup df window i :
  i < length (rows df) →
  ∃ m s,
    float_column (with_stats df window) "rolling_mean" !! i = Some m
    ∧ float_column (with_stats df window) "rolling_std" !! i = Some s.
Proof.
  intros Hi.
  destruct (float_column_with_stats df window) as (Hm & Hs & _).
  rewrite Hm, Hs. unfold Rolling_mean, Rolling_std.
  destruct (lookup_lt_is_Some_2 (Rolling_apply series_mean
    (mkRolling (temperature <$> rows df) window true 1)) i) as [m Hmi];
    [by rewrite Rolling_apply_length; simpl; rewrite length_fmap|].
  destruct (lookup_lt_is_Some_2 (Rolling_apply (series_std 1)
    (mkRolling (temperature <$> rows df) window true 1)) i) as [s Hsi];
    [by rewrite Rolling_apply_length; simpl; rewrite length_fmap|].
  by exists m, s.
Qed.

Lemma pipeline_flag_lookup df window u lo i o m s :
  frame_getitem (with_stats df window) "upper_bound" = Ok u →
  frame_getitem (with_stats df window) "lower_bound" = Ok lo →
  rows df !! i = Some o →
  float_column (with_stats df window) "rolling_mean" !! i = Some m →
  float_column (with_stats df window) "rolling_std" !! i = Some s →
  bool_column (with_anomaly (with_stats df window) u lo) "anomaly" !! i
  = Some (fgt (temperature o) (fadd m (fmul (Fin 2) s))
          || flt (temperature o) (fsub m (fmul (Fin 2) s))).
Proof.
  intros Hu Hlo Ho Hm Hs.
  destruct (baseline_bounds_lookup _ _ _ _ _ Hm Hs) as [Hub Hlb].
  apply anomaly_lookup; [done|..].
  - by rewrite <-(frame_getitem_float_column _ _ _ Hu).
  - by rewrite <-(frame_getitem_float_column _ _ _ Hlo).
Qed.

Lemma anomaly_column_length df window u lo :
  frame_getitem (with_stats df window) "upper_bound" = Ok u →
  frame_getitem (with_stats df window) "lower_bound" = Ok lo →
  length (bool_column (with_anomaly (with_stats df window) u lo) "anomaly")
  = length (rows df).
Proof.
  intros Hu Hlo. rewrite bool_column_with_anomaly.
  rewrite <-(frame_getitem_float_column _ _ _ Hu).
  rewrite <-(frame_getitem_float_column _ _ _ Hlo).
  rewrite !length_zip_with, length_fmap.
  rewrite !float_column_with_stats_length
    by (by apply (bool_decide_unpack _)).
  simpl. lia.
Qed.

Lemma series_std_nonneg ddof xs s :
  series_std ddof xs = Fin s → (0 <= s)%R.
Proof.
  unfold series_std. case_decide; [|done]. intros [= <-]. apply sqrt_pos.
Qed.

Lemma series_std_few xs : length (notna xs) < 2 → series_std 1 xs = NaN.
Proof. intros Hn. unfold series_std. by rewrite decide_False by lia. Qed.

Lemma length_notna xs : length (notna xs) ≤ length xs.
Proof.
  unfold notna. induction xs as [|[|x] xs IH]; csimpl; lia.
Qed.

(** X5 -- Run one after the other with a window from 1 up to the 64-bit
    limit, the two functions never fail and every row gets a flag.  A
    flagged row has a temperature, a rolling mean and a rolling standard
    deviation that are numbers, and its temperature lies beyond a bound on
    the far side of the rolling mean: above the upper bound and the mean,
    or below the lower bound and the mean.  A row whose temperature is NaN
    or equals its rolling mean, or whose rolling standard deviation is NaN,
    is not flagged. *)
Theorem flagged_rows_lie_beyond_the_band (df : frame) (window : Z) :
  (1 ≤ window)%Z → (window < 2 ^ 63)%Z →
  ∃ out flagged,
    call_calculate_moving_statistics df window = Ok out
    ∧ call_detect_anomalies out = Ok flagged
    ∧ rows flagged = rows out
    ∧ length (bool_column flagged "anomaly") = length (rows df)
    ∧ ∀ i o, rows out !! i = Some o →
        ∃ m s ub lb,
          float_column out "rolling_mean" !! i = Some m
          ∧ float_column out "rolling_std" !! i = Some s
          ∧ float_column out "upper_bound" !! i = Some ub
          ∧ float_column out "lower_bound" !! i = Some lb
          ∧ is_Some (bool_column flagged "anomaly" !! i)
          ∧ (bool_column flagged "anomaly" !! i = Some true →
             ∃ t mu sd u l,
               temperature o = Fin t ∧ m = Fin mu ∧ s = Fin sd
               ∧ ub = Fin u ∧ lb = Fin l
               ∧ ((u < t ∧ mu < t) ∨ (t < l ∧ t < mu))%R)
          ∧ (temperature o = NaN ∨ temperature o = m ∨ s = NaN →
             bool_column flagged "anomaly" !! i = Some false).
Proof.
  intros Hw _.
  set (sorted := frame_sort_index df).
  destruct (frame_getitem_with_stats sorted window) as (u & lo & Hu & Hlo).
  exists (with_stats sorted window),
         (with_anomaly (with_stats sorted window) u lo).
  split; [by apply call_calculate_moving_statistics_ok|].
  split; [by apply call_detect_anomalies_ok|].
  split; [done|]. split.
  { rewrite anomaly_column_length by done.
    unfold sorted. by rewrite frame_sort_index_rows, sort_by_length. }
  intros i o Ho.
  change (rows (with_stats sorted window)) with (rows sorted) in Ho.
  assert (i < length (rows df)) as Hi.
  { apply lookup_lt_Some in Ho. unfold sorted in Ho.
    by rewrite frame_sort_index_rows, sort_by_length in Ho. }
  destruct (baseline_lookup df window i Hw Hi) as [Hm Hs].
  fold sorted in Hm, Hs.
  destruct (baseline_bounds_lookup _ _ _ _ _ Hm Hs) as [Hub Hlb].
  do 4 eexists. do 4 (split; [done|]).
  rewrite (pipeline_flag_lookup sorted window u lo i o _ _ Hu Hlo Ho Hm Hs).
  split; [by eexists|].
  set (w := centered_window window i
              (temperature <$> sort_by timestamp (rows df))).
  pose proof (series_std_nonneg 1 w) as Hsd.
  destruct (temperature o) as [|t], (series_mean w) as [|mu],
           (series_std 1 w) as [|sd]; simpl;
    try (split; [done|by intros _]).
  specialize (Hsd sd eq_refl). split.
  - intros [= Hflag]. apply orb_true_iff in Hflag.
    rewrite !bool_decide_eq_true in Hflag.
    exists t, mu, sd, (mu + 2 * sd)%R, (mu - 2 * sd)%R.
    do 5 (split; [done|]). lra.
  - intros [?|[[= ->]|?]]; try done. f_equal.
    apply orb_false_iff. rewrite !bool_decide_eq_false. lra.
Qed.

Lemma flagged_rows_lie_beyond_the_band_witness :
  (1 ≤ 3)%Z ∧ (3 < 2 ^ 63)%Z ∧
  ∃ out flagged,
    call_calculate_moving_statistics (raw obs_example) 3 = Ok out
    ∧ call_detect_anomalies out = Ok flagged
    ∧ length (bool_column flagged "anomaly")
      = length (rows (raw obs_example)).
Proof.
  split; [lia|]. split; [lia|].
  destruct (flagged_rows_lie_beyond_the_band (raw obs_example) 3)
    as (out & flagged & H1 & H2 & _ & H3 & _); [lia|lia|].
  by exists out, flagged.
Defined.

(** X6 -- The band is never inverted.  In every row of the result the two bounds
    are [mean + 2 * std] and [mean - 2 * std] with a standard deviation that
    is not negative, so whenever the bounds are numbers the lower bound is
    at most the rolling mean and the rolling mean at most the upper bound;
    and the two bounds are NaN together. *)
Theorem band_encloses_rolling_mean (df : frame) (window : Z) (i : nat) :
  (1 ≤ window)%Z → i < length (rows df) →
  ∃ out m s ub lb,
    call_calculate_moving_statistics df window = Ok out
    ∧ float_column out "rolling_mean" !! i = Some m
    ∧ float_column out "rolling_std" !! i = Some s
    ∧ float_column out "upper_bound" !! i = Some ub
    ∧ float_column out "lower_bound" !! i = Some lb
    ∧ is_nan ub = is_nan lb
    ∧ (∀ mu sd, m = Fin mu → s = Fin sd →
         (0 <= sd)%R ∧ ub = Fin (mu + 2 * sd) ∧ lb = Fin (mu - 2 * sd))
    ∧ (∀ u l, ub = Fin u → lb = Fin l →
         ∃ mu, m = Fin mu ∧ (l <= mu)%R ∧ (mu <= u)%R).
Proof.
  intros Hw Hi.
  destruct (baseline_lookup df window i Hw Hi) as [Hm Hs].
  destruct (baseline_bounds_lookup _ _ _ _ _ Hm Hs) as [Hub Hlb].
  do 5 eexists.
  split; [by apply call_calculate_moving_statistics_ok|].
  do 4 (split; [done|]).
  set (w := centered_window window i
              (temperature <$> sort_by timestamp (rows df))).
  destruct (series_mean w) as [|mu] eqn:Emu,
           (series_std 1 w) as [|sd] eqn:Esd;
    (split; [done|]); (split; [|done || idtac]); try done.
  - intros mu' sd' [= <-] [= <-]. split; [|done].
    by apply (series_std_nonneg 1 w).
  - intros u l [= <-] [= <-]. exists mu. split; [done|].
    pose proof (series_std_nonneg 1 w sd Esd). lra.
Qed.

Lemma band_encloses_rolling_mean_witness :
  (1 ≤ 3)%Z ∧ 0 < length (rows (raw obs_example))
  ∧ ∃ out m s ub lb,
    call_calculate_moving_statistics (raw obs_example) 3 = Ok out
    ∧ float_column out "rolling_mean" !! 0 = Some m
    ∧ float_column out "rolling_std" !! 0 = Some s
    ∧ float_column out "upper_bound" !! 0 = Some ub
    ∧ float_column out "lower_bound" !! 0 = Some lb
    ∧ is_nan ub = is_nan lb.
Proof.
  split; [lia|]. split; [simpl; lia|].
  destruct (band_encloses_rolling_mean (raw obs_example) 3 0)
    as (out & m & s & ub & lb & H1 & H2 & H3 & H4 & H5 & H6 & _);
    [lia|simpl; lia|].
  by exists out, m, s, ub, lb.
Defined.

(** X7 -- Nothing is flagged where a window holds a single observation: with a
    window of 1, or with at most one observation in the series, every flag
    is false, whatever the temperatures. *)
Theorem no_flags_with_single_observation_windows (df : frame) (window : Z) :
  (1 ≤ window)%Z → window = 1%Z ∨ length (rows df) ≤ 1 →
  ∃ out flagged,
    call_calculate_moving_statistics df window = Ok out
    ∧ call_detect_anomalies out = Ok flagged
    ∧ bool_column flagged "anomaly" = replicate (length (rows df)) false.
Proof.
  intros Hw Hone.
  set (sorted := frame_sort_index df).
  destruct (frame_getitem_with_stats sorted window) as (u & lo & Hu & Hlo).
  exists (with_stats sorted window),
         (with_anomaly (with_stats sorted window) u lo).
  split; [by apply call_calculate_moving_statistics_ok|].
  split; [by apply call_detect_anomalies_ok|].
  assert (length (rows sorted) = length (rows df)) as Hlen
    by (by unfold sorted; rewrite frame_sort_index_rows, sort_by_length).
  apply list_eq. intros i.
  destruct (decide (i < length (rows df))) as [Hi|Hi].
  - rewrite lookup_replicate_2 by done.
    destruct (lookup_lt_is_Some_2 (rows sorted) i) as [o Ho]; [lia|].
    destruct (baseline_lookup df window i Hw Hi) as [Hm Hs].
    fold sorted in Hm, Hs.
    rewrite (pipeline_flag_lookup sorted window u lo i o _ _ Hu Hlo Ho Hm Hs).
    rewrite series_std_few.
    + f_equal. by destruct (series_mean _), (temperature o).
    + set (ts := temperature <$> sort_by timestamp (rows df)).
      assert (i < length ts) as Hits
        by (by unfold ts; rewrite length_fmap, sort_by_length).
      pose proof (centered_window_length window i ts Hw Hits) as Hk.
      pose proof (length_notna (centered_window window i ts)).
      assert (length ts = length (rows df)) as Hn
        by (by unfold ts; rewrite length_fmap, sort_by_length).
      assert (length (centered_window window i ts) ≤ 1); [|lia].
      destruct Hone as [->|Hone]; Z.div_mod_to_equations; lia.
  - rewrite !lookup_ge_None_2; [done|..].
    + rewrite length_replicate. lia.
    + rewrite anomaly_column_length by done. lia.
Qed.

Lemma no_flags_with_single_observation_windows_witness :
  (1 ≤ 1)%Z
  ∧ (1%Z = 1%Z ∨ length (rows (raw constant_three)) ≤ 1)
  ∧ ∃ out flagged,
    call_calculate_moving_statistics (raw constant_three) 1 = Ok out
    ∧ call_detect_anomalies out = Ok flagged
    ∧ bool_column flagged "anomaly"
      = replicate (length (rows (raw constant_three))) false.
Proof.
  split; [lia|]. split; [by left|].
  apply (no_flags_with_single_observation_windows (raw constant_three) 1);
    [lia|by left].
Defined.

(** ** Computing the baseline again *)

Lemma zip_sorted_fst (keys : list Z) (idx : list nat) :
  Sorted Z.le keys → Sorted (key_le fst) (zip keys idx).
Proof.
  intros Hs. revert idx.
  induction Hs as [|k keys Hs IH Hk]; intros idx; [constructor|].
  destruct idx as [|i idx]; [constructor|]. simpl. constructor; [apply IH|].
  destruct Hk as [|k' keys' Hkk']; [constructor|].
  destruct idx as [|i' idx]; constructor. done.
Qed.

Lemma argsort_sorted (keys : list Z) :
  Sorted Z.le keys → argsort keys = seq 0 (length keys).
Proof.
  intros Hs. unfold argsort.
  rewrite sort_by_id by (by apply zip_sorted_fst).
  apply snd_zip. by rewrite length_seq.
Qed.

Lemma Sorted_timestamps (l : list Obs) :
  Sorted (key_le timestamp) l → Sorted Z.le (timestamp <$> l).
Proof.
  induction 1 as [|o l Hl IH Ho]; [constructor|].
  simpl. constructor; [done|]. by destruct Ho; constructor.
Qed.

Lemma take_col_all col n :
  col_length col = n → take_col (seq 0 n) col = col.
Proof.
  intros <-. destruct col as [xs|bs]; simpl; f_equal;
    apply (take_rows_seq []).
Qed.

(** A frame whose rows are in timestamp order is left as it is. *)
Lemma frame_sort_index_sorted df :
  frame_wf df → Sorted (key_le timestamp) (rows df) →
  frame_sort_index df = df.
Proof.
  intros Hwf Hs. unfold frame_sort_index.
  rewrite argsort_sorted by (by apply Sorted_timestamps).
  rewrite length_fmap. destruct df as [rs cs]. simpl in *. f_equal.
  - apply (take_rows_seq []).
  - apply map_eq. intros c. rewrite lookup_fmap.
    destruct (cs !! c) as [col|] eqn:Hc; [|done]. simpl. f_equal.
    apply take_col_all. by apply (Hwf c).
Qed.

Lemma with_stats_wf df window : frame_wf df → frame_wf (with_stats df window).
Proof.
  intros Hwf c col Hc.
  destruct (decide (c ∈ stats_names)) as [Hin|Hout].
  - pose proof (float_column_with_stats_length df window c Hin) as Hlen.
    revert Hin Hc Hlen.
    unfold stats_names, float_column, frame_getitem, with_stats, stats_cols.
    simpl. rewrite !elem_of_cons, elem_of_nil.
    intros [->|[->|[->|[->|[]]]]]; simpl;
      rewrite ?lookup_insert_eq, ?lookup_insert_ne by done;
      rewrite ?lookup_insert_eq, ?lookup_insert_ne by done;
      rewrite ?lookup_insert_eq, ?lookup_insert_ne by done;
      rewrite ?lookup_insert_eq, ?lookup_insert_ne by done;
      by intros [= <-].
  - rewrite with_stats_cols_other in Hc by done. by apply (Hwf c).
Qed.

Lemma stats_cols_overwrite df window window' :
  stats_cols (with_stats df window) window' = stats_cols df window'.
Proof.
  unfold stats_cols, with_stats. cbn [rows cols].
  apply map_eq. intros c.
  destruct (decide (c = "lower_bound")) as [->|?];
    [by rewrite !lookup_insert_eq|].
  rewrite !(lookup_insert_ne _ "lower_bound") by done.
  destruct (decide (c = "upper_bound")) as [->|?];
    [by rewrite !lookup_insert_eq|].
  rewrite !(lookup_insert_ne _ "upper_bound") by done.
  destruct (decide (c = "rolling_std")) as [->|?];
    [by rewrite !lookup_insert_eq|].
  rewrite !(lookup_insert_ne _ "rolling_std") by done.
  destruct (decide (c = "rolling_mean")) as [->|?];
    [by rewrite !lookup_insert_eq|].
  rewrite !(lookup_insert_ne _ "rolling_mean") by done.
  unfold stats_cols. by rewrite !lookup_insert_ne by done.
Qed.

Lemma argsort_perm (keys : list Z) : argsort keys ≡ₚ seq 0 (length keys).
Proof.
  unfold argsort. rewrite sort_by_perm.
  by rewrite snd_zip by (by rewrite length_seq).
Qed.

Lemma take_rows_length {A} (p : list nat) (xs : list A) :
  Forall (λ i, i < length xs) p → length (take_rows p xs) = length p.
Proof.
  unfold take_rows. induction 1 as [|i p Hi Hp IH]; [done|]. csimpl.
  destruct (lookup_lt_is_Some_2 xs i Hi) as [x ->]. simpl. by rewrite IH.
Qed.

Lemma take_rows_argsort_length {A} (keys : list Z) (xs : list A) :
  length xs = length keys → length (take_rows (argsort keys) xs) = length xs.
Proof.
  intros Hlen. rewrite take_rows_length.
  - by rewrite argsort_perm, length_seq.
  - rewrite argsort_perm, Hlen. apply Forall_forall.
    intros i Hi%elem_of_seq. lia.
Qed.

Lemma frame_sort_index_wf df : frame_wf df → frame_wf (frame_sort_index df).
Proof.
  intros Hwf c col Hc. unfold frame_sort_index in *. simpl in *.
  rewrite lookup_fmap in Hc.
  destruct (cols df !! c) as [col0|] eqn:Hc0; [|done].
  injection Hc as <-. pose proof (Hwf c col0 Hc0) as Hlen.
  rewrite !take_rows_argsort_length by (by rewrite length_fmap).
  destruct col0 as [xs|bs]; simpl in *;
    by rewrite take_rows_argsort_length by (by rewrite length_fmap).
Qed.

(** X8 -- The baseline can be computed again on its own result: for a frame
    whose added columns have one value per row, calling
    [calculate_moving_statistics] on the frame it returned, with the same
    or another window, gives what calling it on the input with that window
    gives.  The four columns are replaced, nothing accumulates. *)
Theorem baseline_recomputed_from_result
    (df out : frame) (window window' : Z) :
  frame_wf df →
  call_calculate_moving_statistics df window = Ok out →
  call_calculate_moving_statistics out window'
  = call_calculate_moving_statistics df window'.
Proof.
  intros Hwf Hout.
  destruct (decide (1 ≤ window)%Z) as [Hw|Hw];
    [|by rewrite call_calculate_moving_statistics_invalid in Hout by lia].
  rewrite call_calculate_moving_statistics_ok in Hout by done.
  injection Hout as <-.
  set (sorted := frame_sort_index df).
  assert (frame_wf sorted) as Hwfs by (by apply frame_sort_index_wf).
  assert (frame_sort_index (with_stats sorted window)
          = with_stats sorted window) as Hfix.
  { apply frame_sort_index_sorted; [by apply with_stats_wf|].
    unfold sorted. rewrite baseline_rows. apply sort_by_sorted. }
  destruct (decide (1 ≤ window')%Z) as [Hw'|Hw'].
  - rewrite !call_calculate_moving_statistics_ok by done. rewrite Hfix.
    f_equal. unfold with_stats at 1. simpl.
    by rewrite stats_cols_overwrite.
  - by rewrite !call_calculate_moving_statistics_invalid by lia.
Qed.

Lemma raw_wf obs : frame_wf (raw obs).
Proof. intros c col Hc. simpl in Hc. by rewrite lookup_empty in Hc. Qed.

Lemma baseline_recomputed_from_result_witness :
  frame_wf (raw obs_example)
  ∧ call_calculate_moving_statistics (raw obs_example) 3
    = Ok (with_stats (frame_sort_index (raw obs_example)) 3)
  ∧ call_calculate_moving_statistics
      (with_stats (frame_sort_index (raw obs_example)) 3) 7
    = call_calculate_moving_statistics (raw obs_example) 7.
Proof.
  assert (call_calculate_moving_statistics (raw obs_example) 3
          = Ok (with_stats (frame_sort_index (raw obs_example)) 3)) as Hcall
    by (apply call_calculate_moving_statistics_ok; lia).
  split; [apply raw_wf|]. split; [done|].
  apply (baseline_recomputed_from_result (raw obs_example) _ 3 7);
    [apply raw_wf|done].
Defined.

(** ** The season of the month *)

(** X12 -- Every month from 1 to 12 has one of the four seasons, three months
    each, and only a number outside 1..12 gives "unknown". *)
Theorem month_to_season_covers_the_year (month : Z) :
  ((1 ≤ month ≤ 12)%Z ↔ month_to_season month ∈ season_order)
  ∧ (¬ (1 ≤ month ≤ 12)%Z ↔ month_to_season month = "unknown")
  ∧ (∀ s, s ∈ season_order →
       length (filter (λ m, month_to_season m = s) (seqZ 1 12)) = 3).
Proof.
  assert (∀ s, s ∈ season_order →
            length (filter (λ m, month_to_season m = s) (seqZ 1 12)) = 3)
    as Hthree.
  { intros s. unfold season_order. rewrite !elem_of_cons, elem_of_nil.
    by intros [->|[->|[->|[->|[]]]]]. }
  destruct (decide (1 ≤ month ≤ 12)%Z) as [Hin|Hout].
  - assert (month ∈ seqZ 1 12) as Hm by (apply elem_of_seqZ; lia).
    assert (month_to_season month ∈ season_order
            ∧ month_to_season month ≠ "unknown") as [Hs Hu].
    { revert Hm. unfold season_order. vm_compute seqZ.
      rewrite !elem_of_cons, elem_of_nil.
      intros [->|[->|[->|[->|[->|[->|[->|[->|[->|[->|[->|[->|[]]]]]]]]]]]]];
        (split; [|done]);
        first [by left|by right; left|by do 2 right; left|by do 3 right; left]. }
    split_and!; [by split|split; [done|by intros ?]|done].
  - assert (month_to_season month = "unknown") as Hu.
    { destruct month as [|p|p]; [done| |done].
      do 5 (try (destruct p as [p|p|]; try done)); lia. }
    split_and!; [|by split|done].
    split; [done|]. rewrite Hu. unfold season_order.
    rewrite !elem_of_cons, elem_of_nil. by intros [?|[?|[?|[?|[]]]]].
Qed.

(** ** The reading against a season with little data *)

Lemma evaluate_in_season_Some city_data s reading :
  0 < length (select_season city_data s) →
  evaluate_in_season city_data s reading
  = let t := temperature <$> select_season city_data s in
    let lo := fsub (series_mean t) (fmul (Fin 2) (series_std 1 t)) in
    let up := fadd (series_mean t) (fmul (Fin 2) (series_std 1 t)) in
    Some (mkEvaluation (series_mean t) (series_std 1 t) lo up
            (fle lo reading && fle reading up)).
Proof. intros Hn. unfold evaluate_in_season. by rewrite decide_True. Qed.

(** X13 -- A season with fewer than two temperatures that are numbers has no
    standard deviation: both bounds are NaN and no reading at all is
    normal, not even one equal to the only temperature of the season. *)
Theorem reading_never_normal_with_one_observation
    (city_data : list Obs) (s : string) (reading : float64) :
  0 < length (select_season city_data s) →
  series_count (temperature <$> select_season city_data s) < 2 →
  ∃ ev,
    evaluate_in_season city_data s reading = Some ev
    ∧ std_temp ev = NaN ∧ lower_bound ev = NaN ∧ upper_bound ev = NaN
    ∧ is_normal ev = false.
Proof.
  intros Hn Hc. rewrite evaluate_in_season_Some by done.
  eexists. split; [done|]. simpl.
  rewrite series_std_few by done.
  destruct (series_mean _); simpl; split_and!; try done.
Qed.

Lemma reading_never_normal_with_one_observation_witness :
  0 < length (select_season lone_winter "winter")
  ∧ series_count (temperature <$> select_season lone_winter "winter") < 2
  ∧ ∃ ev,
      evaluate_in_season lone_winter "winter" (Fin 10) = Some ev
      ∧ std_temp ev = NaN ∧ lower_bound ev = NaN ∧ upper_bound ev = NaN
      ∧ is_normal ev = false.
Proof.
  split; [simpl; lia|]. split; [unfold series_count; simpl; lia|].
  apply (reading_never_normal_with_one_observation lone_winter "winter");
    unfold series_count; simpl; lia.
Defined.

(** X14 -- With at least two temperatures that are numbers in the season, the
    mean, the standard deviation and the two bounds are numbers, the
    standard deviation is not negative and the band holds the mean: the
    lower bound is at most the mean and the mean at most the upper bound.
    A reading is normal exactly when it is a number from the lower to the
    upper bound, both included; the mean itself is normal, a NaN reading
    is not. *)
Theorem reading_band_holds_the_mean
    (city_data : list Obs) (s : string) (reading : float64) :
  2 ≤ series_count (temperature <$> select_season city_data s) →
  ∃ ev m sd lo hi,
    evaluate_in_season city_data s reading = Some ev
    ∧ mean_temp ev = Fin m ∧ std_temp ev = Fin sd ∧ (0 <= sd)%R
    ∧ lower_bound ev = Fin lo ∧ upper_bound ev = Fin hi
    ∧ (lo <= m)%R ∧ (m <= hi)%R
    ∧ (is_normal ev = true
       ↔ ∃ x, reading = Fin x ∧ (lo <= x)%R ∧ (x <= hi)%R)
    ∧ (reading = Fin m → is_normal ev = true)
    ∧ (reading = NaN → is_normal ev = false).
Proof.
  intros Hc.
  set (t := temperature <$> select_season city_data s) in *.
  assert (0 < length (select_season city_data s)) as Hn.
  { pose proof (length_notna t) as Hle. unfold series_count in Hc.
    assert (length t = length (select_season city_data s)) as Hlen
      by (by unfold t; rewrite length_fmap).
    lia. }
  rewrite evaluate_in_season_Some by done. fold t. simpl.
  unfold series_count in Hc.
  assert (series_mean t = Fin (mean_of (notna t))) as Hm
    by (unfold series_mean; by rewrite decide_True by lia).
  destruct (series_std 1 t) as [|sd] eqn:Hsd.
  { unfold series_std in Hsd. by rewrite decide_True in Hsd by lia. }
  pose proof (series_std_nonneg 1 t sd Hsd) as Hpos.
  rewrite Hm.
  eexists _, (mean_of (notna t)), sd,
    (mean_of (notna t) - 2 * sd)%R, (mean_of (notna t) + 2 * sd)%R.
  split; [done|].
  cbn [mean_temp std_temp lower_bound upper_bound is_normal fsub fadd fmul
       lift2].
  split_and!; [done|done|done|done|done|lra|lra|..].
  - destruct reading as [|x].
    + split; [done|]. by intros (x & ? & _).
    + rewrite andb_true_iff, !fle_Fin. split.
      * intros [H1 H2]. by exists x.
      * by intros (x' & [= <-] & H1 & H2).
  - intros ->. rewrite andb_true_iff, !fle_Fin. lra.
  - by intros ->.
Qed.

Lemma reading_band_holds_the_mean_witness :
  2 ≤ series_count (temperature <$> select_season winter_obs "winter")
  ∧ ∃ ev m sd,
      evaluate_in_season winter_obs "winter" (Fin 20) = Some ev
      ∧ mean_temp ev = Fin m ∧ std_temp ev = Fin sd ∧ (0 <= sd)%R.
Proof.
  split; [unfold series_count; simpl; lia|].
  destruct (reading_band_holds_the_mean winter_obs "winter" (Fin 20))
    as (ev & m & sd & lo & hi & H1 & H2 & H3 & H4 & _);
    [unfold series_count; simpl; lia|].
  by exists ev, m, sd.
Defined.

(** ** The range of the temperatures *)

Lemma Rlist_min_lower x vs :
  (Rlist_min x vs <= x)%R ∧ Forall (λ y, (Rlist_min x vs <= y)%R) vs.
Proof.
  induction vs as [|v vs [IHx IHvs]]; simpl.
  - split; [lra|constructor].
  - pose proof (Rmin_l v (Rlist_min x vs)).
    pose proof (Rmin_r v (Rlist_min x vs)).
    split; [lra|]. constructor; [done|].
    eapply Forall_impl; [apply IHvs|]. intros y Hy. simpl in *. lra.
Qed.

Lemma Rlist_max_upper x vs :
  (x <= Rlist_max x vs)%R ∧ Forall (λ y, (y <= Rlist_max x vs)%R) vs.
Proof.
  induction vs as [|v vs [IHx IHvs]]; simpl.
  - split; [lra|constructor].
  - pose proof (Rmax_l v (Rlist_max x vs)).
    pose proof (Rmax_r v (Rlist_max x vs)).
    split; [lra|]. constructor; [done|].
    eapply Forall_impl; [apply IHvs|]. intros y Hy. simpl in *. lra.
Qed.

Lemma Rlist_min_elem x vs : Rlist_min x vs ∈ x :: vs.
Proof.
  induction vs as [|v vs IH]; simpl; [left|].
  unfold Rmin. destruct (Rle_dec v (Rlist_min x vs)).
  - right. left.
  - apply elem_of_cons in IH as [->|IH]; [left|by do 2 right].
Qed.

Lemma Rlist_max_elem x vs : Rlist_max x vs ∈ x :: vs.
Proof.
  induction vs as [|v vs IH]; simpl; [left|].
  unfold Rmax. destruct (Rle_dec v (Rlist_max x vs)).
  - apply elem_of_cons in IH as [->|IH]; [left|by do 2 right].
  - right. left.
Qed.

Lemma Rlist_min_all x vs y : y ∈ x :: vs → (Rlist_min x vs <= y)%R.
Proof.
  destruct (Rlist_min_lower x vs) as [Hx Hvs].
  rewrite Forall_forall in Hvs. intros [->|Hy]%elem_of_cons; auto.
Qed.

Lemma Rlist_max_all x vs y : y ∈ x :: vs → (y <= Rlist_max x vs)%R.
Proof.
  destruct (Rlist_max_upper x vs) as [Hx Hvs].
  rewrite Forall_forall in Hvs. intros [->|Hy]%elem_of_cons; auto.
Qed.

Lemma notna_elem xs y : y ∈ notna xs ↔ Fin y ∈ xs.
Proof.
  unfold notna. rewrite list_elem_of_omap. split.
  - intros ([|x] & Hx & Hy); [done|]. by injection Hy as ->.
  - intros Hy. by exists (Fin y).
Qed.

(** X10 -- The figures under the chart.  Without a temperature that is a number
    all four are NaN.  With at least one, the minimum, the mean and the
    maximum are numbers; the minimum and the maximum are temperatures of
    the data, and every temperature that is a number lies between them.
    The standard deviation is NaN for a single number and a number that is
    not negative for two or more. *)
Theorem metrics_of_the_temperatures (city_data : list Obs) :
  let t := temperature <$> city_data in
  let n := series_count t in
  let m := temperature_metrics city_data in
  (n = 0 →
   metric_mean m = NaN ∧ metric_max m = NaN ∧ metric_min m = NaN
   ∧ metric_std m = NaN)
  ∧ (0 < n →
     ∃ lo mu hi,
       metric_min m = Fin lo ∧ metric_mean m = Fin mu ∧ metric_max m = Fin hi
       ∧ Fin lo ∈ t ∧ Fin hi ∈ t
       ∧ ∀ x, Fin x ∈ t → (lo <= x)%R ∧ (x <= hi)%R)
  ∧ (n = 1 → metric_std m = NaN)
  ∧ (2 ≤ n → ∃ sd, metric_std m = Fin sd ∧ (0 <= sd)%R).
Proof.
  intros t n m. subst n m. unfold temperature_metrics, series_count. simpl.
  fold t. split_and!.
  - intros Hn. unfold series_mean, series_max, series_min, series_std.
    destruct (notna t) as [|x vs]; [|simpl in Hn; lia].
    simpl. by split_and!.
  - intros Hn. unfold series_min, series_max, series_mean.
    rewrite decide_True by done.
    destruct (notna t) as [|x vs] eqn:Ht; [simpl in Hn; lia|].
    do 3 eexists. do 3 (split; [done|]). split_and!.
    + apply notna_elem. rewrite Ht. apply Rlist_min_elem.
    + apply notna_elem. rewrite Ht. apply Rlist_max_elem.
    + intros y Hy%notna_elem. rewrite Ht in Hy.
      split; [by apply Rlist_min_all|by apply Rlist_max_all].
  - intros Hn. apply series_std_few. lia.
  - intros Hn. unfold series_std. rewrite decide_True by done.
    eexists. split; [done|]. apply sqrt_pos.
Qed.

(** ** The order of strings *)

Lemma string_compare_trans s1 s2 s3 :
  String.compare s1 s2 ≠ Gt → String.compare s2 s3 ≠ Gt →
  String.compare s1 s3 ≠ Gt.
Proof.
  revert s2 s3. induction s1 as [|c1 s1 IH]; intros [|c2 s2] [|c3 s3];
    simpl; try done.
  unfold Ascii.compare.
  destruct (N.compare_spec (Ascii.N_of_ascii c1) (Ascii.N_of_ascii c2)),
           (N.compare_spec (Ascii.N_of_ascii c2) (Ascii.N_of_ascii c3)),
           (N.compare_spec (Ascii.N_of_ascii c1) (Ascii.N_of_ascii c3));
    try done; try lia.
  apply IH.
Qed.

Lemma string_le_compare a b : string_le a b ↔ String.compare a b ≠ Gt.
Proof.
  unfold string_le, String.leb. by destruct (String.compare a b).
Qed.

#[global] Instance string_le_trans : Transitive string_le.
Proof.
  intros a b c. rewrite !string_le_compare. apply string_compare_trans.
Qed.

#[global] Instance string_le_total : Total string_le.
Proof. intros a b. apply String.leb_total. Qed.

#[global] Instance string_le_antisym : AntiSymm (=) string_le.
Proof. intros a b. apply String.leb_antisym. Qed.

Lemma sorted_keys_unique (l1 l2 : list string) :
  NoDup l1 → NoDup l2 → (∀ x, x ∈ l1 ↔ x ∈ l2) →
  merge_sort string_le l1 = merge_sort string_le l2.
Proof.
  intros H1 H2 H12.
  apply (Sorted_unique string_le); [apply Sorted_merge_sort, _..|].
  rewrite !merge_sort_Permutation. by apply NoDup_Permutation.
Qed.

(** Any two different elements of a sorted list without repetition are in
    strictly ascending order. *)
Lemma sorted_strictly (l : list string) i j a b :
  StronglySorted string_le l → NoDup l →
  i < j → l !! i = Some a → l !! j = Some b →
  string_le a b ∧ a ≠ b.
Proof.
  intros Hs. revert i j.
  induction Hs as [|x l Hs IH Hx]; intros i j Hnd Hij Ha Hb; [done|].
  apply NoDup_cons in Hnd as [Hxl Hnd].
  destruct j as [|j]; [lia|]. simpl in Hb.
  destruct i as [|i]; simpl in Ha.
  - injection Ha as <-. apply list_elem_of_lookup_2 in Hb.
    rewrite Forall_forall in Hx. split; [by apply Hx|]. by intros ->.
  - apply (IH i j); [done|lia|done..].
Qed.

(** ** The cities *)

Lemma elem_of_city_list data c :
  c ∈ city_list data ↔ ∃ o, o ∈ data ∧ city o = c.
Proof.
  unfold city_list.
  rewrite merge_sort_Permutation, elem_of_remove_dups, list_elem_of_fmap.
  split.
  - intros (o & -> & Ho). by exists o.
  - intros (o & Ho & <-). by exists o.
Qed.

Lemma NoDup_city_list data : NoDup (city_list data).
Proof.
  unfold city_list. rewrite merge_sort_Permutation. apply NoDup_remove_dups.
Qed.

(** X16 -- The list of cities offered for selection holds every city of the data
    once, in strictly ascending order, and does not depend on the order of
    the rows. *)
Theorem city_list_sorted_and_complete (data : list Obs) :
  (∀ c, c ∈ city_list data ↔ ∃ o, o ∈ data ∧ city o = c)
  ∧ NoDup (city_list data)
  ∧ (∀ i j a b, i < j →
       city_list data !! i = Some a → city_list data !! j = Some b →
       string_le a b ∧ a ≠ b)
  ∧ (∀ data', data' ≡ₚ data → city_list data' = city_list data).
Proof.
  split_and!.
  - apply elem_of_city_list.
  - apply NoDup_city_list.
  - intros i j a b. apply sorted_strictly; [|apply NoDup_city_list].
    unfold city_list. apply StronglySorted_merge_sort; apply _.
  - intros data' Hp. unfold city_list.
    apply sorted_keys_unique; [apply NoDup_remove_dups..|].
    intros c. rewrite !elem_of_remove_dups. by rewrite Hp.
Qed.

Lemma count_by_key {A} (f : A → string) (l : list A) (ks : list string) :
  NoDup ks →
  sum_list ((λ k, length (filter (λ x, f x = k) l)) <$> ks)
  = length (filter (λ x, f x ∈ ks) l).
Proof.
  induction 1 as [|k ks Hk Hnd IH].
  - simpl. rewrite (filter_iff_elem _ (λ _, False)).
    + by induction l.
    + intros x _. rewrite elem_of_nil. tauto.
  - cbn [fmap list_fmap sum_list sum_list_with]. rewrite IH.
    unfold Datatypes.id.
    rewrite <-(length_filter_disjoint (λ x, f x = k) (λ x, f x ∈ ks)).
    + f_equal. apply list_filter_iff. intros x.
      rewrite elem_of_cons. tauto.
    + intros x Hx Hin. apply Hk. by rewrite <-Hx.
Qed.

(** X17 -- Selecting a city keeps exactly the rows of that city, in their order;
    the selection is not empty exactly for the cities of the list; and the
    selections of all listed cities together have as many rows as the
    data: every row belongs to one city of the list. *)
Theorem select_city_partitions_the_data
    (data : list Obs) (selected_city : string) :
  Forall (λ o, city o = selected_city) (select_city data selected_city)
  ∧ (∀ o, o ∈ select_city data selected_city
          ↔ o ∈ data ∧ city o = selected_city)
  ∧ select_city data selected_city `sublist_of` data
  ∧ (selected_city ∈ city_list data
     ↔ 0 < length (select_city data selected_city))
  ∧ sum_list ((λ c, length (select_city data c)) <$> city_list data)
    = length data.
Proof.
  unfold select_city. split_and!.
  - apply Forall_forall. by intros o [Ho _]%list_elem_of_filter.
  - intros o. rewrite list_elem_of_filter. tauto.
  - apply sublist_filter.
  - rewrite elem_of_city_list. split.
    + intros (o & Ho & Hc).
      assert (o ∈ filter (λ o, city o = selected_city) data) as Hin
        by (by apply list_elem_of_filter).
      destruct (filter _ data); [by inv Hin|simpl; lia].
    + destruct (filter _ data) as [|o l] eqn:Hf; simpl; [lia|]. intros _.
      assert (o ∈ filter (λ o, city o = selected_city) data) as Hin
        by (rewrite Hf; left).
      apply list_elem_of_filter in Hin as [Hc Ho]. by exists o.
  - rewrite (count_by_key city data) by apply NoDup_city_list.
    f_equal. rewrite (filter_iff_elem _ (λ _, True)).
    + by induction data as [|o l IH]; [|rewrite filter_cons_True, IH].
    + intros o Ho. split; [done|]. intros _.
      apply elem_of_city_list. by exists o.
Qed.

(** ** Statistics by season: order *)

Lemma notna_perm xs ys : xs ≡ₚ ys → notna xs ≡ₚ notna ys.
Proof. intros Hp. unfold notna. by rewrite Hp. Qed.

Lemma series_min_perm xs ys : xs ≡ₚ ys → series_min xs = series_min ys.
Proof.
  intros Hp%notna_perm. unfold series_min.
  destruct (notna xs) as [|x vs], (notna ys) as [|y ws]; [done|..].
  - by apply Permutation_nil_cons in Hp.
  - symmetry in Hp. by apply Permutation_nil_cons in Hp.
  - f_equal. apply Rle_antisym.
    + apply Rlist_min_all. rewrite Hp. apply Rlist_min_elem.
    + apply Rlist_min_all. rewrite <-Hp. apply Rlist_min_elem.
Qed.

Lemma series_max_perm xs ys : xs ≡ₚ ys → series_max xs = series_max ys.
Proof.
  intros Hp%notna_perm. unfold series_max.
  destruct (notna xs) as [|x vs], (notna ys) as [|y ws]; [done|..].
  - by apply Permutation_nil_cons in Hp.
  - symmetry in Hp. by apply Permutation_nil_cons in Hp.
  - f_equal. apply Rle_antisym.
    + apply Rlist_max_all. rewrite <-Hp. apply Rlist_max_elem.
    + apply Rlist_max_all. rewrite Hp. apply Rlist_max_elem.
Qed.

Lemma group_keys_perm_eq data data' :
  data' ≡ₚ data → group_keys data' = group_keys data.
Proof.
  intros Hp. unfold group_keys.
  apply sorted_keys_unique; [apply NoDup_remove_dups..|].
  intros c. rewrite !elem_of_remove_dups. by rewrite Hp.
Qed.

(** X18 -- The seasonal table is in strictly ascending order of the labels, and
    the order of the rows of the data does not matter for its labels, its
    counts, its minima and its maxima. *)
Theorem seasonal_stats_sorted_and_order_free (city_data : list Obs) :
  (∀ i j a b, i < j →
     (seasonal_stats city_data).*1 !! i = Some a →
     (seasonal_stats city_data).*1 !! j = Some b →
     string_le a b ∧ a ≠ b)
  ∧ (∀ city_data', city_data' ≡ₚ city_data →
       (seasonal_stats city_data').*1 = (seasonal_stats city_data).*1
       ∧ ∀ s st st',
           (s, st) ∈ seasonal_stats city_data →
           (s, st') ∈ seasonal_stats city_data' →
           temperature_count st' = temperature_count st
           ∧ temperature_min st' = temperature_min st
           ∧ temperature_max st' = temperature_max st).
Proof.
  split.
  - intros i j a b. rewrite seasonal_stats_keys.
    apply sorted_strictly; [|apply NoDup_group_keys].
    unfold group_keys. apply StronglySorted_merge_sort; apply _.
  - intros city_data' Hp. split.
    + by rewrite !seasonal_stats_keys, (group_keys_perm_eq city_data).
    + intros s st st' Hst Hst'. unfold seasonal_stats in *.
      apply list_elem_of_fmap in Hst as (s1 & [= -> ->] & _).
      apply list_elem_of_fmap in Hst' as (s2 & [= -> ->] & _). simpl.
      assert (temperature <$> select_season city_data' s2
              ≡ₚ temperature <$> select_season city_data s2) as Ht
        by (unfold select_season; by rewrite Hp).
      split_and!.
      * unfold series_count. by rewrite (notna_perm _ _ Ht).
      * by rewrite (series_min_perm _ _ Ht).
      * by rewrite (series_max_perm _ _ Ht).
Qed.

(** ** The seasons of the chart *)

Lemma stats_row_Some (stats : list (string * SeasonStats)) s st :
  NoDup stats.*1 → stats_row stats s = Some st ↔ (s, st) ∈ stats.
Proof.
  unfold stats_row. induction stats as [|[k v] stats IH]; intros Hnd.
  - simpl. split; [done|]. by intros ?%elem_of_nil.
  - simpl in Hnd. apply NoDup_cons in Hnd as [Hk Hnd].
    rewrite filter_cons. simpl. destruct (decide (k = s)) as [->|Hks].
    + simpl. rewrite elem_of_cons. split.
      * intros [= ->]. by left.
      * intros [[= ->]|Hin]; [done|]. destruct Hk.
        apply list_elem_of_fmap. by exists (s, st).
    + rewrite IH by done. rewrite elem_of_cons. split; [by right|].
      by intros [[= -> ->]|?].
Qed.

Lemma stats_row_None (stats : list (string * SeasonStats)) s :
  stats_row stats s = None ↔ s ∉ stats.*1.
Proof.
  unfold stats_row. induction stats as [|[k v] stats IH].
  - simpl. split; [intros _; apply not_elem_of_nil|done].
  - rewrite filter_cons. simpl. destruct (decide (k = s)) as [->|Hks].
    + simpl. split; [done|]. intros []. left.
    + rewrite IH, not_elem_of_cons. split; [by split|by intros [_ ?]].
Qed.

(** X19 -- The table behind the chart always has the four seasons, in the order
    winter, spring, summer, autumn.  A season with observations carries
    its row of the seasonal statistics, a season without observations a
    row of NaN, and labels other than the four are left out. *)
Theorem seasonal_stats_ordered_has_four_seasons (city_data : list Obs) :
  (seasonal_stats_ordered city_data).*1 = season_order
  ∧ (∀ s st, (s, Some st) ∈ seasonal_stats_ordered city_data
             ↔ s ∈ season_order ∧ (s, st) ∈ seasonal_stats city_data)
  ∧ (∀ s, (s, None) ∈ seasonal_stats_ordered city_data
          ↔ s ∈ season_order ∧ ∀ o, o ∈ city_data → season o ≠ Some s).
Proof.
  assert (NoDup (seasonal_stats city_data).*1) as Hnd
    by (rewrite seasonal_stats_keys; apply NoDup_group_keys).
  unfold seasonal_stats_ordered. split_and!.
  - rewrite <-list_fmap_compose.
    by rewrite <-(list_fmap_id season_order) at 2.
  - intros s st. rewrite list_elem_of_fmap. split.
    + intros (s' & [= <- Hrow] & Hs). split; [done|].
      by apply stats_row_Some.
    + intros [Hs Hst]. exists s. split; [|done].
      f_equal. symmetry. by apply stats_row_Some.
  - intros s. rewrite list_elem_of_fmap.
    assert (stats_row (seasonal_stats city_data) s = None
            ↔ ∀ o, o ∈ city_data → season o ≠ Some s) as Hnone.
    { rewrite stats_row_None, seasonal_stats_keys, elem_of_group_keys.
      split.
      - intros Hno o Ho Hso. apply Hno. by exists o.
      - intros Hall (o & Ho & Hso). by apply (Hall o). }
    split.
    + intros (s' & [= <- Hrow] & Hs). split; [done|]. by apply Hnone.
    + intros [Hs Hno]. exists s. split; [|done].
      f_equal. symmetry. by apply Hnone.
Qed.

(** ** The anomaly tab *)

Lemma mask_select_cons {A} (b : bool) mask (x : A) xs :
  mask_select (b :: mask) (x :: xs)
  = if b then x :: mask_select mask xs else mask_select mask xs.
Proof. unfold mask_select. simpl. rewrite filter_cons. by destruct b. Qed.

Lemma mask_select_nil {A} (xs : list A) : mask_select [] xs = [].
Proof. done. Qed.

Lemma mask_select_split {A} mask (xs : list A) :
  length mask = length xs →
  mask_select mask xs ++ mask_select (mask_not mask) xs ≡ₚ xs.
Proof.
  revert xs. induction mask as [|b mask IH]; intros [|x xs] Hlen;
    try done.
  injection Hlen as Hlen.
  change (mask_not (b :: mask)) with (negb b :: mask_not mask).
  rewrite !mask_select_cons. destruct b; simpl.
  - f_equiv. by apply IH.
  - rewrite <-Permutation_middle. f_equiv. by apply IH.
Qed.

Lemma mask_select_length {A} mask (xs : list A) :
  length mask = length xs → length (mask_select mask xs) = bool_sum mask.
Proof.
  revert xs. induction mask as [|b mask IH]; intros [|x xs] Hlen;
    try done.
  injection Hlen as Hlen. rewrite mask_select_cons.
  change (bool_sum (b :: mask))
    with ((if b then 1 else 0) + bool_sum mask).
  destruct b; simpl; by rewrite IH.
Qed.

Lemma mask_select_sublist {A} mask (xs : list A) :
  mask_select mask xs `sublist_of` xs.
Proof.
  revert xs. induction mask as [|b mask IH]; intros [|x xs];
    try apply sublist_nil_l.
  rewrite mask_select_cons. destruct b.
  - by apply sublist_skip.
  - by apply sublist_cons.
Qed.

Lemma mask_select_self mask :
  mask_select mask mask = replicate (bool_sum mask) true.
Proof.
  induction mask as [|b mask IH]; [done|].
  rewrite mask_select_cons.
  change (bool_sum (b :: mask))
    with ((if b then 1 else 0) + bool_sum mask).
  destruct b; simpl; by rewrite IH.
Qed.

Lemma bool_sum_le mask : bool_sum mask ≤ length mask.
Proof.
  induction mask as [|b mask IH]; [done|].
  change (bool_sum (b :: mask))
    with ((if b then 1 else 0) + bool_sum mask).
  destruct b; simpl; lia.
Qed.

Lemma mask_select_not_self mask :
  mask_select (mask_not mask) mask
  = replicate (length mask - bool_sum mask) false.
Proof.
  induction mask as [|b mask IH]; [done|].
  change (mask_not (b :: mask)) with (negb b :: mask_not mask).
  rewrite mask_select_cons.
  change (bool_sum (b :: mask))
    with ((if b then 1 else 0) + bool_sum mask).
  pose proof (bool_sum_le mask) as Hle.
  destruct b; simpl; rewrite IH; [done|].
  by replace (S (length mask) - bool_sum mask)
    with (S (length mask - bool_sum mask)) by lia.
Qed.

Lemma bool_column_frame_mask m df mask :
  frame_getitem df "anomaly" = Ok (BoolCol mask) →
  bool_column (frame_mask m df) "anomaly" = mask_select m mask.
Proof.
  unfold bool_column, frame_getitem, frame_mask. simpl.
  rewrite lookup_fmap. destruct (cols df !! "anomaly") as [col|]; [|done].
  by intros [= ->].
Qed.

Lemma anomaly_percent_bounds count n :
  0 < n → count ≤ n →
  ∃ p, anomaly_percent count n = Fin p ∧ (0 <= p)%R ∧ (p <= 100)%R.
Proof.
  intros Hn Hc. unfold anomaly_percent. rewrite decide_False by lia.
  eexists. split; [done|].
  assert (0 < INR n)%R as Hpos by (apply lt_0_INR; lia).
  assert (0 <= INR count)%R as H0 by apply pos_INR.
  assert (INR count <= INR n)%R as Hle by (apply le_INR; lia).
  split.
  - apply Rmult_le_pos; [|lra]. apply Rmult_le_pos; [done|].
    apply Rlt_le, Rinv_0_lt_compat. done.
  - assert (INR count / INR n <= 1)%R; [|lra].
    apply Rmult_le_reg_r with (INR n); [done|].
    unfold Rdiv. rewrite Rmult_assoc, Rinv_l by lra. lra.
Qed.

(** X11 -- The anomaly tab splits the flagged frame in two with the flag column
    as mask.  The anomalies and the normal rows keep the order of the
    frame and together are its rows; the displayed count is the number of
    rows of the anomaly part; in the anomaly part every flag is true, in
    the normal part every flag is false; and for a city with at least one
    observation the displayed percentage is a number from 0 to 100. *)
Theorem anomaly_tab_splits_the_rows (df : frame) (window : Z) :
  (1 ≤ window)%Z →
  ∃ out flagged mask,
    call_calculate_moving_statistics df window = Ok out
    ∧ call_detect_anomalies out = Ok flagged
    ∧ frame_getitem flagged "anomaly" = Ok (BoolCol mask)
    ∧ let anomaly_data := frame_mask mask flagged in
      let normal_data := frame_mask (mask_not mask) flagged in
      let anomaly_count := bool_sum mask in
      rows anomaly_data ++ rows normal_data ≡ₚ rows flagged
      ∧ rows anomaly_data `sublist_of` rows flagged
      ∧ rows normal_data `sublist_of` rows flagged
      ∧ length (rows anomaly_data) = anomaly_count
      ∧ length (rows anomaly_data) + length (rows normal_data)
        = length (rows df)
      ∧ bool_column anomaly_data "anomaly" = replicate anomaly_count true
      ∧ bool_column normal_data "anomaly"
        = replicate (length (rows df) - anomaly_count) false
      ∧ (0 < length (rows df) →
         ∃ p, anomaly_percent anomaly_count (length (rows df)) = Fin p
              ∧ (0 <= p)%R ∧ (p <= 100)%R).
Proof.
  intros Hw.
  set (sorted := frame_sort_index df).
  destruct (frame_getitem_with_stats sorted window) as (u & lo & Hu & Hlo).
  set (flagged := with_anomaly (with_stats sorted window) u lo).
  set (mask := bool_column flagged "anomaly").
  exists (with_stats sorted window), flagged, mask.
  split; [by apply call_calculate_moving_statistics_ok|].
  split; [by apply call_detect_anomalies_ok|].
  assert (frame_getitem flagged "anomaly" = Ok (BoolCol mask)) as Hmask.
  { unfold mask, bool_column, flagged, with_anomaly.
    by rewrite !frame_getitem_setitem_eq by done. }
  split; [done|].
  assert (length (rows flagged) = length (rows df)) as Hrows.
  { unfold flagged, sorted. simpl.
    by rewrite take_rows_argsort, sort_by_length. }
  assert (length mask = length (rows flagged)) as Hlen.
  { unfold mask, flagged. rewrite anomaly_column_length by done.
    unfold sorted. by rewrite frame_sort_index_rows, sort_by_length. }
  cbv zeta. unfold frame_mask at 1 2 3 4 5 6. cbn [rows].
  pose proof (mask_select_split mask (rows flagged) Hlen) as Hsplit.
  pose proof (mask_select_length mask (rows flagged) Hlen) as Hcount.
  assert (bool_sum mask ≤ length (rows df)) as Hle.
  { rewrite <-Hcount, <-Hrows.
    apply sublist_length, mask_select_sublist. }
  split_and!.
  - done.
  - apply mask_select_sublist.
  - apply mask_select_sublist.
  - done.
  - rewrite <-length_app, Hsplit. done.
  - rewrite (bool_column_frame_mask _ _ mask) by done.
    apply mask_select_self.
  - rewrite (bool_column_frame_mask _ _ mask) by done.
    rewrite mask_select_not_self. by rewrite Hlen, Hrows.
  - intros Hn. by apply anomaly_percent_bounds.
Qed.

Lemma anomaly_tab_splits_the_rows_witness :
  (1 ≤ 3)%Z ∧
  ∃ out flagged mask,
    call_calculate_moving_statistics (raw obs_example) 3 = Ok out
    ∧ call_detect_anomalies out = Ok flagged
    ∧ frame_getitem flagged "anomaly" = Ok (BoolCol mask)
    ∧ length (rows (frame_mask mask flagged)) = bool_sum mask.
Proof.
  split; [lia|].
  destruct (anomaly_tab_splits_the_rows (raw obs_example) 3)
    as (out & flagged & mask & H1 & H2 & H3 & _ & _ & _ & H4 & _); [lia|].
  by exists out, flagged, mask.
Defined.

(** ** The weather client *)

Lemma get_current_weather_sync_no_key requests_get city_name :
  get_current_weather_sync requests_get city_name ""
  = ((None, Some "API ключ не указан"), []).
Proof. done. Qed.

Lemma get_current_weather_sync_key requests_get city_name api_key :
  api_key ≠ "" →
  get_current_weather_sync requests_get city_name api_key
  = (match requests_get (weather_request city_name api_key) with
     | Some response =>
         if decide (status_code response = 200%Z) then
           match json_body response ≫= weather_of_json with
           | Some weather => (Some weather, None)
           | None => (None, Some "Ошибка подключения")
           end
         else if decide (status_code response = 401%Z) then
           (None, Some "Неверный API ключ")
         else
           (None, Some ("Ошибка: " +:+ pretty (status_code response)))
     | None => (None, Some "Ошибка подключения")
     end, [weather_request city_name api_key]).
Proof.
  intros Hkey. unfold get_current_weather_sync.
  by rewrite decide_False by done.
Qed.

(** X20 -- The client answers with data or with an error, never with both and
    never with neither, whether the request is answered or raises; every
    error message is a non-empty string, so the caller's test [if error:]
    takes the error branch exactly when there is no data. *)
Theorem weather_result_is_data_or_error
    (requests_get : request → option response) (city_name api_key : string) :
  let r := (get_current_weather_sync requests_get city_name api_key).1 in
  (is_Some r.1 ↔ r.2 = None)
  ∧ (r.1 = None ↔ is_Some r.2)
  ∧ (truthy r.2 = true ↔ r.1 = None)
  ∧ (truthy r.2 = false ↔ is_Some r.1).
Proof.
  cbv zeta. destruct (decide (api_key = "")) as [->|Hkey].
  - rewrite get_current_weather_sync_no_key. simpl.
    split_and!; split; try done; by intros [? ?].
  - rewrite get_current_weather_sync_key by done. cbn [fst].
    destruct (requests_get _) as [resp|];
      [|simpl; split_and!; split; try done; by intros [? ?]].
    destruct (decide (status_code resp = 200%Z));
      [destruct (json_body resp ≫= weather_of_json)|
       destruct (decide (status_code resp = 401%Z))];
      simpl; split_and!; split; try done; try (by intros [? ?]);
      by eexists.
Qed.

(** X21 -- Without a key nothing is sent and the answer is the fixed message;
    with a key exactly one request is sent, to the weather service, and
    it carries the city, the key, metric units and the language, with a
    timeout of 10 seconds. *)
Theorem weather_client_sends_one_request
    (requests_get : request → option response) (city_name api_key : string) :
  let r := get_current_weather_sync requests_get city_name api_key in
  (api_key = "" ↔ r.2 = [])
  ∧ (api_key = "" → r.1 = (None, Some "API ключ не указан"))
  ∧ (api_key ≠ "" →
     ∃ req, r.2 = [req]
       ∧ url req = "http://api.openweathermap.org/data/2.5/weather"
       ∧ timeout req = 10%Z
       ∧ params req !! 0 = Some ("q", city_name)
       ∧ params req !! 1 = Some ("appid", api_key)
       ∧ params req !! 2 = Some ("units", "metric")
       ∧ params req !! 3 = Some ("lang", "ru")
       ∧ length (params req) = 4).
Proof.
  cbv zeta. destruct (decide (api_key = "")) as [->|Hkey].
  - rewrite get_current_weather_sync_no_key. by split_and!.
  - rewrite get_current_weather_sync_key by done. simpl. split_and!.
    + by split.
    + done.
    + intros _. eexists. by split_and!.
Qed.

(** X22 -- Data comes back exactly when there is a key, the service answers with
    status 200 and the body is JSON from which the four fields can be
    read; the data are then those four fields. *)
Theorem weather_data_iff_status_200_and_fields
    (requests_get : request → option response) (city_name api_key : string)
    (weather : WeatherData) :
  (get_current_weather_sync requests_get city_name api_key).1.1 = Some weather
  ↔ api_key ≠ ""
    ∧ ∃ resp body,
        requests_get (weather_request city_name api_key) = Some resp
        ∧ status_code resp = 200%Z
        ∧ json_body resp = Some body
        ∧ weather_of_json body = Some weather.
Proof.
  destruct (decide (api_key = "")) as [->|Hkey].
  - rewrite get_current_weather_sync_no_key. simpl. split; [done|].
    by intros [? _].
  - rewrite get_current_weather_sync_key by done. cbn [fst]. split.
    + intros Hw. split; [done|].
      destruct (requests_get _) as [resp|]; [|done].
      destruct (decide (status_code resp = 200%Z)) as [H200|];
        [|by destruct (decide (status_code resp = 401%Z))].
      destruct (json_body resp) as [body|] eqn:Hbody; [|done]. simpl in Hw.
      destruct (weather_of_json body) as [w|] eqn:Hwj; [|done].
      simpl in Hw. injection Hw as ->. by exists resp, body.
    + intros (_ & resp & body & -> & H200 & Hbody & Hwj).
      rewrite decide_True by done. rewrite Hbody. simpl. by rewrite Hwj.
Qed.

(** X23 -- The fields can be read exactly from a body that is an object with an
    object "main" holding "temp", a non-empty list "weather" whose first
    element is an object holding "description", a "name", and an object
    "sys" holding "country".  Anything else, a missing key or a value of
    another kind, makes the client answer with the connection error. *)
Theorem weather_of_json_needs_the_four_fields
    (body : json) (weather : WeatherData) :
  weather_of_json body = Some weather
  ↔ ∃ o main first rest sys,
      body = JObj o
      ∧ o !! "main" = Some (JObj main)
      ∧ main !! "temp" = Some (wd_temperature weather)
      ∧ o !! "weather" = Some (JArr (JObj first :: rest))
      ∧ first !! "description" = Some (wd_description weather)
      ∧ o !! "name" = Some (wd_city weather)
      ∧ o !! "sys" = Some (JObj sys)
      ∧ sys !! "country" = Some (wd_country weather).
Proof.
  unfold weather_of_json. split.
  - destruct body as [| | | | |o]; try done. simpl.
    destruct (o !! "main") as [[| | | | |main]|] eqn:Hmain; try done. simpl.
    destruct (main !! "temp") as [temp|] eqn:Htemp; [|done]. simpl.
    destruct (o !! "weather") as [[| | |s|l|]|] eqn:Hweather; try done.
    { simpl. destruct s; [done|]. simpl. done. }
    simpl. destruct l as [|[| | | | |first] rest]; try done. simpl.
    destruct (first !! "description") as [description|] eqn:Hd; [|done].
    simpl. destruct (o !! "name") as [name|] eqn:Hname; [|done]. simpl.
    destruct (o !! "sys") as [[| | | | |sys]|] eqn:Hsys; try done. simpl.
    destruct (sys !! "country") as [country|] eqn:Hcountry; [|done]. simpl.
    intros [= <-]. by exists o, main, first, rest, sys.
  - intros (o & main & first & rest & sys
            & -> & Hmain & Htemp & Hweather & Hd & Hname & Hsys & Hcountry).
    simpl. rewrite Hmain. simpl. rewrite Htemp. simpl. rewrite Hweather.
    simpl. rewrite Hd. simpl. rewrite Hname. simpl. rewrite Hsys. simpl.
    rewrite Hcountry. simpl. by destruct weather.
Qed.

Lemma status_message_inj (c1 c2 : Z) :
  "Ошибка: " +:+ pretty c1 = "Ошибка: " +:+ pretty c2 → c1 = c2.
Proof. simpl. intros [= Heq]. by apply (inj pretty). Qed.

(** X24 -- With a key, the message tells what went wrong: the connection error
    when the request raises or the body of a 200 answer cannot be read,
    the wrong-key message for status 401, and for any other status a
    message that ends with the status code.  Messages of different status
    codes differ, and none of them is one of the three fixed messages. *)
Theorem weather_error_names_the_cause
    (requests_get : request → option response) (city_name api_key : string) :
  api_key ≠ "" →
  let r := (get_current_weather_sync requests_get city_name api_key).1 in
  let answer := requests_get (weather_request city_name api_key) in
  (answer = None → r = (None, Some "Ошибка подключения"))
  ∧ (∀ resp, answer = Some resp → status_code resp = 200%Z →
       json_body resp ≫= weather_of_json = None →
       r = (None, Some "Ошибка подключения"))
  ∧ (∀ resp, answer = Some resp → status_code resp = 401%Z →
       r = (None, Some "Неверный API ключ"))
  ∧ (∀ resp, answer = Some resp →
       status_code resp ≠ 200%Z → status_code resp ≠ 401%Z →
       r = (None, Some ("Ошибка: " +:+ pretty (status_code resp))))
  ∧ (∀ c1 c2 : Z,
       "Ошибка: " +:+ pretty c1 = "Ошибка: " +:+ pretty c2 → c1 = c2)
  ∧ (∀ c : Z,
       "Ошибка: " +:+ pretty c
       ∉ ["Ошибка подключения"; "Неверный API ключ"; "API ключ не указан"]).
Proof.
  intros Hkey. cbv zeta.
  rewrite get_current_weather_sync_key by done. cbn [fst]. split_and!.
  - by intros ->.
  - intros resp -> H200 Hbody.
    rewrite decide_True by done. by rewrite Hbody.
  - intros resp -> H401.
    rewrite decide_False by lia. by rewrite decide_True by done.
  - intros resp -> H200 H401. by rewrite !decide_False by done.
  - apply status_message_inj.
  - intros c. rewrite !not_elem_of_cons. simpl. split_and!; try done.
    apply not_elem_of_nil.
Qed.

Lemma weather_error_names_the_cause_witness :
  "key" ≠ ""
  ∧ (get_current_weather_sync not_found_service "Berlin" "key").1
    = (None, Some ("Ошибка: " +:+ pretty 404%Z)).
Proof.
  assert ("key" ≠ "") as Hkey by done.
  split; [done|].
  destruct (weather_error_names_the_cause
              not_found_service "Berlin" "key" Hkey)
    as (_ & _ & _ & Hother & _).
  by apply (Hother (mkResponse 404 None)).
Defined.
